(** * InMAP, WRF-CMAQ preprocessor ([wrfcmaq.go]): a shallow embedding

    The file follows the Go source: the derived-field closures
    ([cmaqTemperatureConvert], [cmaqPressureConvert], [WRFCmaq.Height],
    [cmaqRadiationDown]), the land-use remappers ([cmaqSeinfeldLandUse],
    [cmaqWeselyLandUse], [cmaqZ0]) with their tables, and the constructor
    [NewWRFCmaq].

    Data is kept as the code has it: [float64] is Rocq's primitive binary64
    float, Go's [int] is a 64-bit two's-complement integer carried in [Z] with
    its wrap-around written out, a slice is a list with checked indexing, a
    [(value, error)] return is a pair whose second component is [None] for
    [nil], and a run-time panic is a separate outcome that is never confused
    with a returned error. *)

From Stdlib Require Import ZArith Lia Floats Ascii.
From stdpp Require Import base list gmap strings.

Set Warnings "-inexact-float".
Local Open Scope Z_scope.

(** ** Go's [int] on a 64-bit platform *)

Module GoInt.

Definition min_int : Z := - 2 ^ 63.
Definition max_int : Z := 2 ^ 63 - 1.

(** Two's-complement wrap-around of an arithmetic result. *)
Definition wrap (z : Z) : Z := (z + 2 ^ 63) mod 2 ^ 64 - 2 ^ 63.

Definition in_range (z : Z) : Prop := min_int <= z <= max_int.

Definition mul (a b : Z) : Z := wrap (a * b).
Definition add (a b : Z) : Z := wrap (a + b).
Definition sub (a b : Z) : Z := wrap (a - b).

End GoInt.

(** ** Panics and outcomes *)

(** The run-time panics the modelled code can raise. *)
Inductive panic : Type :=
  | IndexOutOfRange (index len : Z)   (* runtime error: index out of range *)
  | NilDereference                    (* nil pointer dereference *)
  | MakeSliceLen                      (* makeslice: len out of range *)
  | LibraryPanic (msg : string).      (* panic(err) raised by package sparse *)

(** A Go computation either returns a value or panics. *)
Inductive outcome (A : Type) : Type :=
  | Ret (a : A)
  | Panic (p : panic).
Arguments Ret {A} a.
Arguments Panic {A} p.

(** Go's [error] values are represented by their message; [None] is [nil]. *)
Definition error : Type := string.

(** ** The monad of the embedding: state passing with panics *)

Definition Exec (St A : Type) : Type := St -> outcome A * St.

Definition ret {St A} (a : A) : Exec St A := fun st => (Ret a, st).
Definition raise {St A} (p : panic) : Exec St A := fun st => (Panic p, st).
Definition bind {St A B} (m : Exec St A) (k : A -> Exec St B) : Exec St B :=
  fun st => match m st with
            | (Ret a, st') => k a st'
            | (Panic p, st') => (Panic p, st')
            end.
Definition lift {St A} (o : outcome A) : Exec St A := fun st => (o, st).

Notation "'do' x <- m ; k" := (bind m (fun x => k))
  (at level 10, x name, m at level 100, k at level 200).
Notation "'do' ' p <- m ; k" := (bind m (fun x => let 'p := x in k))
  (at level 10, p pattern, m at level 100, k at level 200).

(** [for i := lo; i < lo + n; i++ { s = body i s }]. *)
Fixpoint forRange {St Acc : Type} (n : nat) (lo : Z) (body : Z -> Acc -> Exec St Acc)
    (s : Acc) : Exec St Acc :=
  match n with
  | O => ret s
  | S n' => do s' <- body lo s; forRange n' (lo + 1) body s'
  end.

(** [for i := 0; i < hi; i++]. *)
Definition forUpTo {St Acc : Type} (hi : Z) (body : Z -> Acc -> Exec St Acc) (s : Acc)
  : Exec St Acc := forRange (Z.to_nat hi) 0 body s.

(** [for i, x := range xs { s = body i x s }]. *)
Fixpoint forEachFrom {St A Acc : Type} (i : Z) (xs : list A)
    (body : Z -> A -> Acc -> Exec St Acc) (s : Acc) : Exec St Acc :=
  match xs with
  | [] => ret s
  | x :: xs' => do s' <- body i x s; forEachFrom (i + 1) xs' body s'
  end.

Definition forEach {St A Acc : Type} (xs : list A)
    (body : Z -> A -> Acc -> Exec St Acc) (s : Acc) : Exec St Acc :=
  forEachFrom 0 xs body s.

(** ** Slices *)

Module Slice.

(** [s[i]] as an r-value. *)
Definition get {A} (s : list A) (i : Z) : outcome A :=
  if (0 <=? i) && (i <? Z.of_nat (length s)) then
    match s !! Z.to_nat i with
    | Some a => Ret a
    | None => Panic (IndexOutOfRange i (Z.of_nat (length s)))
    end
  else Panic (IndexOutOfRange i (Z.of_nat (length s))).

(** [s[i] = v]. *)
Definition set {A} (s : list A) (i : Z) (v : A) : outcome (list A) :=
  if (0 <=? i) && (i <? Z.of_nat (length s)) then Ret (<[Z.to_nat i := v]> s)
  else Panic (IndexOutOfRange i (Z.of_nat (length s))).

(** [make([]float64, n)]. *)
Definition make (n : Z) : outcome (list float) :=
  if n <? 0 then Panic MakeSliceLen else Ret (replicate (Z.to_nat n) 0%float).

End Slice.

(** ** The state of a run

    [world] stands for everything the raw readers hide in their closures
    (open files, time cursors).  [applied] is ghost state: the number of
    elementwise computations finished so far.  It lets a statement say how
    far a loop got before a panic, or that a pull computed no cell at all. *)

Record State (World : Type) : Type := mkState { world : World; applied : nat }.
Arguments mkState {World} world applied.
Arguments world {World} s.
Arguments applied {World} s.

Definition tick {World} : Exec (State World) unit :=
  fun st => (Ret tt, mkState (world st) (S (applied st))).

(** ** Package [github.com/ctessum/sparse]: dense arrays

    The package is an external dependency; these are the operations the file
    calls, after the package's documentation.  A [DenseArray] stores its
    elements row-major in one slice; the package's cached [ndims] and
    [arrsize] are [len(Shape)] and the product of [Shape]. *)

Module sparse.

Record DenseArray : Type := mkDense { Elements : list float; Shape : list Z }.

(** A [*DenseArray]; [None] is the nil pointer. *)
Definition ptr : Type := option DenseArray.

Definition deref (p : ptr) : outcome DenseArray :=
  match p with
  | Some a => Ret a
  | None => Panic NilDereference
  end.

(** [arrsize] as [ZerosDense] accumulates it: [arrsize *= d] for each [d]. *)
Definition arrsize (dims : list Z) : Z := fold_left GoInt.mul dims 1.

Definition ZerosDense (dims : list Z) : outcome DenseArray :=
  match Slice.make (arrsize dims) with
  | Ret e => Ret (mkDense e dims)
  | Panic p => Panic p
  end.

(** [Copy] allocates a fresh array with the same elements and shape. *)
Definition Copy (A : DenseArray) : DenseArray :=
  mkDense (Elements A) (Shape A).

(** [checkIndex]: the index must have one entry per dimension, each below the
    dimension's length. *)
Definition checkIndex (A : DenseArray) (index : list Z) : bool :=
  (length index =? length (Shape A))%nat
  && forallb (fun '(i, d) => i <? d) (zip index (Shape A)).

(** The row-major offset, accumulated as [Index1d] does:
    [index1d = index1d + index[i]*mul] with [mul] the product of the later
    dimensions. *)
Fixpoint offset (shape index : list Z) (acc : Z) : Z :=
  match index, shape with
  | i :: index', _ :: shape' =>
      offset shape' index' (GoInt.add acc (GoInt.mul i (arrsize shape')))
  | _, _ => acc
  end.

Definition Index1d (A : DenseArray) (index : list Z) : outcome Z :=
  if checkIndex A index then Ret (offset (Shape A) index 0)
  else Panic (LibraryPanic "index does not fit the array dimensions").

Definition Get (A : DenseArray) (index : list Z) : outcome float :=
  match Index1d A index with
  | Ret i => Slice.get (Elements A) i
  | Panic p => Panic p
  end.

(** [A.Set(val, index...)]. *)
Definition SetVal (A : DenseArray) (val : float) (index : list Z)
  : outcome DenseArray :=
  match Index1d A index with
  | Ret i =>
      match Slice.set (Elements A) i val with
      | Ret e => Ret (mkDense e (Shape A))
      | Panic p => Panic p
      end
  | Panic p => Panic p
  end.

(** [A.AddDense(B)]: after the package's check that the dimensions agree,
    [for i, val := range B.Elements { A.Elements[i] += val }]. *)
Definition AddDense {World} (A B : DenseArray) : Exec (State World) DenseArray :=
  if bool_decide (Shape A = Shape B) then
    forEach (Elements B)
      (fun i val (A : DenseArray) =>
         do x <- lift (Slice.get (Elements A) i);
         do _ <- tick;
         do e <- lift (Slice.set (Elements A) i (x + val)%float);
         ret (mkDense e (Shape A)))
      A
  else raise (LibraryPanic "dimensions of arrays are not equal").

(** The true product of the dimensions. *)
Definition size (dims : list Z) : Z := foldr Z.mul 1 dims.

(** Arrays as the package builds them: non-negative dimensions whose product
    is a valid slice length, and one element per cell. *)
Definition well_formed (A : DenseArray) : bool :=
  forallb (fun d => 0 <=? d) (Shape A)
  && (size (Shape A) <=? GoInt.max_int)
  && (Z.of_nat (length (Elements A)) =? size (Shape A)).

End sparse.
Export sparse.

(** ** Packages [seinfeld] and [wesely1989]: land-use categories *)

Module seinfeld.
Inductive LandUseCategory : Type :=
  | Evergreen | Deciduous | Grass | Desert | Shrubs.
End seinfeld.

Module wesely1989.
Inductive LandUseCategory : Type :=
  | Urban | Agricultural | Range | Deciduous | Coniferous | MixedForest
  | Water | Barren | Wetland | RangeAg | RockyShrubs.
End wesely1989.

(** ** What the file takes from outside

    The rest of package [inmap] ([f2i], [g], [inDateFormat], the raw readers
    behind [nextDataNCF]) and the Go packages [math] and [time] are not part
    of [wrfcmaq.go].  They are parameters of the development; nothing is
    assumed about them beyond what a statement says. *)

Class Extern : Type := {
  (** The state hidden in the closures of the raw readers. *)
  World : Type;
  (** [time.Time] and [chan string]. *)
  Time : Type;
  Chan : Type;
  (** [math.Pow] once its first special case ([y == 0 || x == 1]) is past. *)
  pow_rest : float -> float -> float;
  (** Package constant [g], the gravitational acceleration. *)
  g : float;
  (** Package helper [f2i], from [float64] to [int]. *)
  f2i : float -> Z;
  (** [float64(c)] for a category constant of each package. *)
  seinfeld_float64 : seinfeld.LandUseCategory -> float;
  wesely_float64 : wesely1989.LandUseCategory -> float;
  (** Package constant [inDateFormat], the layout of the dates. *)
  inDateFormat : string;
  (** [time.Parse(layout, value)] and [time.ParseDuration(s)]; a
      [time.Duration] is a number of nanoseconds. *)
  time_Parse : string -> string -> Time * option error;
  time_ParseDuration : string -> Z * option error;
  (** [nextDataNCF(template, format, varName, start, end, recordDelta,
      fileDelta, readNCF, msgChan)]: the raw producer of one variable. *)
  nextDataNCF :
    string -> string -> string -> Time -> Time -> Z -> Z -> option Chan ->
    Exec (State World) (sparse.ptr * option error)
}.

Section Source.
Context {E : Extern}.

(** One run of the program: state passing over [State World], with panics. *)
Definition Go (A : Type) : Type := Exec (State World) A.

(** [type NextData func() ( *sparse.DenseArray, error)]: each call is a pull. *)
Definition NextData : Type := Go (sparse.ptr * option error).

Definition cmaqFormat : string := "2006-01-02".

(** [type WRFCmaq struct]. *)
Record WRFCmaq : Type := mkWRFCmaq {
  aVOC : gmap string float;
  bVOC : gmap string float;
  aSOA : gmap string float;
  bSOA : gmap string float;
  nox : gmap string float;
  pNO : gmap string float;
  sox : gmap string float;
  pS : gmap string float;
  nh3 : gmap string float;
  pNH : gmap string float;
  totalPM25 : gmap string float;
  start : Time;
  end_ : Time;
  cmaqOut : string;
  recordDelta : Z;
  fileDelta : Z;
  msgChan : option Chan
}.

(** [fmt.Errorf(prefix + "%v", err)]. *)
Definition Errorf (prefix : string) (err : error) : error := prefix +:+ err.

(** [func NewWRFCmaq(WRFOut, startDate, endDate string, msgChan chan string)
    ( *WRFCmaq, error)]. *)
Definition NewWRFCmaq (WRFOut startDate endDate : string) (msgChan : option Chan)
  : option WRFCmaq * option error :=
  let '(start, err) := time_Parse inDateFormat startDate in
  match err with
  | Some err =>
      (None, Some (Errorf "inmap: WRF-Cmaq preprocessor start time: " err))
  | None =>
  let '(end_, err) := time_Parse inDateFormat endDate in
  match err with
  | Some err =>
      (None, Some (Errorf "inmap: WRF-Cmaq preprocessor end time: " err))
  | None =>
  let '(recordDelta, err) := time_ParseDuration "1h" in
  match err with
  | Some err =>
      (None, Some (Errorf "inmap: WRF-Cmaq preprocessor recordDelta: " err))
  | None =>
  let '(fileDelta, err) := time_ParseDuration "24h" in
  match err with
  | Some err =>
      (None, Some (Errorf "inmap: WRF-Cmaq preprocessor fileDelta: " err))
  | None =>
      (Some {|
         totalPM25 := {[ "TotalPM25" := 1%float ]};
         sox := {[ "gS" := 1%float ]};
         nox := {[ "gNO" := 1%float ]};
         nh3 := {[ "gNH" := 1%float ]};
         aVOC := {[ "aVOC" := 1%float ]};
         bVOC := {[ "bVOC" := 1%float ]};
         aSOA := {[ "aSOA" := 1%float ]};
         bSOA := {[ "bSOA" := 1%float ]};
         pNO := {[ "pNO" := 1%float ]};
         pS := {[ "pS" := 1%float ]};
         pNH := {[ "pNH" := 1%float ]};
         cmaqOut := WRFOut;
         msgChan := msgChan;
         start := start;
         end_ := end_;
         recordDelta := recordDelta;
         fileDelta := fileDelta
       |}, None)
  end end end end.

(** [func (w *WRFCmaq) read(varName string) NextData]. *)
Definition read (w : WRFCmaq) (varName : string) : NextData :=
  nextDataNCF (cmaqOut w) cmaqFormat varName (start w) (end_ w)
    (recordDelta w) (fileDelta w) (msgChan w).

(** *** Temperature *)

(** [math.Pow]: [case y == 0 || x == 1: return 1], then the rest. *)
Definition math_Pow (x y : float) : float :=
  if ((y =? 0) || (x =? 1))%float then 1%float else pow_rest x y.

Definition po : float := 101300%float.
Definition kappa : float := 0.2854%float.

(** [func thetaPerturbToTemperature(thetaPerturb, p float64) float64]. *)
Definition thetaPerturbToTemperature (thetaPerturb p : float) : float :=
  let pressureCorrection := math_Pow (p / po) kappa in
  let θ := (thetaPerturb + 300)%float in
  (θ * pressureCorrection)%float.

(** [func cmaqTemperatureConvert(thetaFunc, pFunc NextData) NextData]. *)
Definition cmaqTemperatureConvert (thetaFunc pFunc : NextData) : NextData :=
  do '(thetaPerturb, err) <- thetaFunc;
  match err with Some err => ret (None, Some err) | None =>
  do '(p, err) <- pFunc;
  match err with Some err => ret (None, Some err) | None =>
  do theta <- lift (sparse.deref thetaPerturb);
  do T <- lift (sparse.ZerosDense (Shape theta));
  do T <- forEach (Elements theta)
            (fun i tp (T : DenseArray) =>
               do p' <- lift (sparse.deref p);
               do pi <- lift (Slice.get (Elements p') i);
               do _ <- tick;
               do e <- lift (Slice.set (Elements T) i
                               (thetaPerturbToTemperature tp pi));
               ret (mkDense e (Shape T)))
            T;
  ret (Some T, None)
  end end.

(** *** Pressure *)

(** [func cmaqPressureConvert(pFunc, pbFunc NextData) NextData]. *)
Definition cmaqPressureConvert (pFunc pbFunc : NextData) : NextData :=
  do '(pb, err) <- pbFunc;
  match err with Some err => ret (None, Some err) | None =>
  do '(p, err) <- pFunc;
  match err with Some err => ret (None, Some err) | None =>
  do pb' <- lift (sparse.deref pb);
  let P := sparse.Copy pb' in
  do p' <- lift (sparse.deref p);
  do P <- sparse.AddDense P p';
  ret (Some P, None)
  end end.

(** [func (w *WRFCmaq) P() NextData]. *)
Definition P (w : WRFCmaq) : NextData :=
  let pbFunc := read w "PB" in
  let pFunc := read w "P" in
  cmaqPressureConvert pFunc pbFunc.

(** [func (w *WRFCmaq) T() NextData]. *)
Definition T (w : WRFCmaq) : NextData :=
  let thetaFunc := read w "T" in
  let pFunc := P w in
  cmaqTemperatureConvert thetaFunc pFunc.

(** *** Layer height *)

(** [func geopotentialToHeight(ph, phb *sparse.DenseArray) *sparse.DenseArray]. *)
Definition geopotentialToHeight (ph phb : sparse.ptr) : Go DenseArray :=
  do ph' <- lift (sparse.deref ph);
  do layerHeights <- lift (sparse.ZerosDense (Shape ph'));
  do n0 <- lift (Slice.get (Shape ph') 0);
  forUpTo n0 (fun k layerHeights =>
    do n1 <- lift (Slice.get (Shape ph') 1);
    forUpTo n1 (fun j layerHeights =>
      do n2 <- lift (Slice.get (Shape ph') 2);
      forUpTo n2 (fun i layerHeights =>
        do a <- lift (sparse.Get ph' [k; j; i]);
        do phb' <- lift (sparse.deref phb);
        do b <- lift (sparse.Get phb' [k; j; i]);
        do a0 <- lift (sparse.Get ph' [0; j; i]);
        do b0 <- lift (sparse.Get phb' [0; j; i]);
        do _ <- tick;
        let h := ((a + b - a0 - b0) / g)%float in
        lift (sparse.SetVal layerHeights h [k; j; i]))
      layerHeights)
    layerHeights)
  layerHeights.

(** [func (w *WRFCmaq) Height() NextData]. *)
Definition Height (w : WRFCmaq) : NextData :=
  let phFunc := read w "PH" in
  let phbFunc := read w "PHB" in
  do '(ph, err) <- phFunc;
  match err with Some err => ret (None, Some err) | None =>
  do '(phb, err) <- phbFunc;
  match err with Some err => ret (None, Some err) | None =>
  do h <- geopotentialToHeight ph phb;
  ret (Some h, None)
  end end.

(** *** Land use *)

(** [var NLCDseinfeld = []seinfeld.LandUseCategory{...}]. *)
Definition NLCDseinfeld : list seinfeld.LandUseCategory :=
  [ seinfeld.Evergreen; seinfeld.Deciduous; seinfeld.Evergreen;
    seinfeld.Deciduous; seinfeld.Deciduous; seinfeld.Shrubs; seinfeld.Shrubs;
    seinfeld.Shrubs; seinfeld.Grass; seinfeld.Grass; seinfeld.Grass;
    seinfeld.Grass; seinfeld.Desert; seinfeld.Grass; seinfeld.Desert;
    seinfeld.Desert; seinfeld.Desert; seinfeld.Desert; seinfeld.Desert;
    seinfeld.Desert; seinfeld.Desert; seinfeld.Desert; seinfeld.Desert;
    seinfeld.Desert; seinfeld.Desert; seinfeld.Desert; seinfeld.Desert;
    seinfeld.Deciduous; seinfeld.Evergreen; seinfeld.Deciduous;
    seinfeld.Shrubs; seinfeld.Shrubs; seinfeld.Grass; seinfeld.Grass;
    seinfeld.Desert; seinfeld.Desert; seinfeld.Grass; seinfeld.Grass;
    seinfeld.Deciduous; seinfeld.Grass ].

(** [var NLCDwesely = []wesely1989.LandUseCategory{...}]. *)
Definition NLCDwesely : list wesely1989.LandUseCategory :=
  [ wesely1989.Coniferous; wesely1989.Deciduous; wesely1989.Coniferous;
    wesely1989.Deciduous; wesely1989.MixedForest; wesely1989.RockyShrubs;
    wesely1989.RockyShrubs; wesely1989.RockyShrubs; wesely1989.Range;
    wesely1989.Range; wesely1989.Wetland; wesely1989.RangeAg;
    wesely1989.Urban; wesely1989.RangeAg; wesely1989.Barren;
    wesely1989.Barren; wesely1989.Water; wesely1989.Barren;
    wesely1989.Barren; wesely1989.Barren; wesely1989.Water;
    wesely1989.Barren; wesely1989.Urban; wesely1989.Urban; wesely1989.Urban;
    wesely1989.Urban; wesely1989.Barren; wesely1989.Deciduous;
    wesely1989.Coniferous; wesely1989.MixedForest; wesely1989.RockyShrubs;
    wesely1989.RockyShrubs; wesely1989.Range; wesely1989.Range;
    wesely1989.Barren; wesely1989.Barren; wesely1989.RangeAg;
    wesely1989.RangeAg; wesely1989.Wetland; wesely1989.Wetland ].

(** [var NLCDz0 = []float64{...}]. *)
Definition NLCDz0 : list float :=
  [ 0.50; 0.50; 0.50; 0.50; 0.35; 0.03; 0.035; 0.03; 0.15; 0.11;
    0.30; 0.10; 0.50; 0.095; 0.001; 0.01; 0.0001; 999; 999; 999;
    0.0001; 0.001; 0.50; 0.70; 1.5; 2.0; 0.01; 0.50; 0.50; 0.35;
    0.025; 0.03; 0.11; 0.20; 0.01; 0.01; 0.10; 0.06; 0.40; 0.20 ]%float.

(** The loop shared by the two categorical remappers, which differ only in
    their table and in the category type:
    [o.Set(float64(table[f2i(lu.Get(j, i)) - 1]), j, i)] for every [j], [i]. *)
Definition landUseLoop {C : Type} (table : list C) (float64 : C -> float)
    (lu o : DenseArray) : Go DenseArray :=
  do n0 <- lift (Slice.get (Shape lu) 0);
  forUpTo n0 (fun j o =>
    do n1 <- lift (Slice.get (Shape lu) 1);
    forUpTo n1 (fun i o =>
      do v <- lift (sparse.Get lu [j; i]);
      do c <- lift (Slice.get table (GoInt.sub (f2i v) 1));
      do _ <- tick;
      lift (sparse.SetVal o (float64 c) [j; i]))
    o)
  o.

(** [func cmaqSeinfeldLandUse(luFunc NextData) NextData]. *)
Definition cmaqSeinfeldLandUse (luFunc : NextData) : NextData :=
  do '(lu, err) <- luFunc;
  match err with Some err => ret (None, Some err) | None =>
  do lu' <- lift (sparse.deref lu);
  do o <- lift (sparse.ZerosDense (Shape lu'));
  do o <- landUseLoop NLCDseinfeld seinfeld_float64 lu' o;
  ret (Some o, None)
  end.

(** [func cmaqWeselyLandUse(luFunc NextData) NextData]. *)
Definition cmaqWeselyLandUse (luFunc : NextData) : NextData :=
  do '(lu, err) <- luFunc;
  match err with Some err => ret (None, Some err) | None =>
  do lu' <- lift (sparse.deref lu);
  do o <- lift (sparse.ZerosDense (Shape lu'));
  do o <- landUseLoop NLCDwesely wesely_float64 lu' o;
  ret (Some o, None)
  end.

(** [func cmaqZ0(LUIndexFunc NextData) NextData]. *)
Definition cmaqZ0 (LUIndexFunc : NextData) : NextData :=
  do '(luIndex, err) <- LUIndexFunc;
  match err with Some err => ret (None, Some err) | None =>
  do luIndex' <- lift (sparse.deref luIndex);
  do zo <- lift (sparse.ZerosDense (Shape luIndex'));
  do zo <- forEach (Elements luIndex')
             (fun i lu (zo : DenseArray) =>
                do z <- lift (Slice.get NLCDz0 (GoInt.sub (f2i lu) 1));
                do _ <- tick;
                do e <- lift (Slice.set (Elements zo) i z);
                ret (mkDense e (Shape zo)))
             zo;
  ret (Some zo, None)
  end.

(** [func (w *WRFCmaq) SeinfeldLandUse() NextData]. *)
Definition SeinfeldLandUse (w : WRFCmaq) : NextData :=
  let luFunc := read w "LU_INDEX" in
  cmaqSeinfeldLandUse luFunc.

(** [func (w *WRFCmaq) WeselyLandUse() NextData]. *)
Definition WeselyLandUse (w : WRFCmaq) : NextData :=
  let luFunc := read w "LU_INDEX" in
  cmaqWeselyLandUse luFunc.

(** [func (w *WRFCmaq) Z0() NextData]. *)
Definition Z0 (w : WRFCmaq) : NextData :=
  let LUIndexFunc := read w "LU_INDEX" in
  cmaqZ0 LUIndexFunc.

(** *** Downwelling radiation *)

(** [func cmaqRadiationDown(swDownFunc, glwFunc NextData) NextData]. *)
Definition cmaqRadiationDown (swDownFunc glwFunc : NextData) : NextData :=
  do '(swDown, err) <- swDownFunc;
  match err with Some err => ret (None, Some err) | None =>
  do '(glw, err) <- glwFunc;
  match err with Some err => ret (None, Some err) | None =>
  do swDown' <- lift (sparse.deref swDown);
  let rad := sparse.Copy swDown' in
  do glw' <- lift (sparse.deref glw);
  do rad <- sparse.AddDense rad glw';
  ret (Some rad, None)
  end end.

(** [func (w *WRFCmaq) RadiationDown() NextData]. *)
Definition RadiationDown (w : WRFCmaq) : NextData :=
  let swDownFunc := read w "SWDOWN" in
  let glwFunc := read w "GLW" in
  cmaqRadiationDown swDownFunc glwFunc.

End Source.

(** ** A reference instance of the outside world

    A concrete [Extern] on which the definitions above can be evaluated.  It
    follows the Go packages where that takes a few lines (dates in the layout
    [20060102], durations written as digits and a unit, truncating
    conversion to [int], the categories numbered in declaration order) and
    is otherwise as small as possible: [math.Pow] past its first special
    case knows only the exponents [1] and [0.5], and the files hold one
    record of a two-layer domain. *)

Module Ref.

Definition is_digit (a : ascii) : bool :=
  let n := Ascii.nat_of_ascii a in (48 <=? n)%nat && (n <=? 57)%nat.

Definition digit_val (a : ascii) : Z := Z.of_nat (Ascii.nat_of_ascii a) - 48.

(** The decimal value of a string of digits, [None] when another character
    occurs. *)
Fixpoint decimal (acc : Z) (s : string) : option Z :=
  match s with
  | EmptyString => Some acc
  | String a s' =>
      if is_digit a then decimal (10 * acc + digit_val a) s' else None
  end.

Definition is_leap (y : Z) : bool :=
  ((y mod 4 =? 0) && negb (y mod 100 =? 0)) || (y mod 400 =? 0).

Definition days_in (y m : Z) : Z :=
  if m =? 2 then (if is_leap y then 29 else 28)
  else if (m =? 4) || (m =? 6) || (m =? 9) || (m =? 11) then 30
  else 31.

(** A date: year, month, day. *)
Definition date : Type := (Z * Z * Z)%type.

Definition zero_date : date := (1, 1, 1).

Definition time_Parse (layout value : string) : date * option error :=
  if bool_decide (layout = "20060102") then
    if (String.length value =? 8)%nat then
      match decimal 0 (String.substring 0 4 value),
            decimal 0 (String.substring 4 2 value),
            decimal 0 (String.substring 6 2 value) with
      | Some y, Some m, Some d =>
          if (1 <=? m) && (m <=? 12) then
            if (1 <=? d) && (d <=? days_in y m) then ((y, m, d), None)
            else (zero_date, Some ("parsing time " +:+ value +:+ ": day out of range"))
          else (zero_date, Some ("parsing time " +:+ value +:+ ": month out of range"))
      | _, _, _ => (zero_date, Some ("parsing time " +:+ value +:+ ": cannot parse"))
      end
    else (zero_date, Some ("parsing time " +:+ value +:+ ": cannot parse"))
  else (zero_date, Some ("parsing time " +:+ value +:+ ": unknown layout")).

(** Nanoseconds in a unit of [time.ParseDuration]. *)
Definition unit_ns (u : string) : option Z :=
  if bool_decide (u = "ns") then Some 1
  else if bool_decide (u = "us") then Some 1000
  else if bool_decide (u = "ms") then Some 1000000
  else if bool_decide (u = "s") then Some 1000000000
  else if bool_decide (u = "m") then Some 60000000000
  else if bool_decide (u = "h") then Some 3600000000000
  else None.

(** The leading digits of a string and what follows them. *)
Fixpoint span_digits (s : string) : string * string :=
  match s with
  | EmptyString => (EmptyString, EmptyString)
  | String a s' =>
      if is_digit a then let '(d, r) := span_digits s' in (String a d, r)
      else (EmptyString, s)
  end.

(** Durations of the form digits-unit, such as [1h] or [90m]. *)
Definition time_ParseDuration (s : string) : Z * option error :=
  let '(d, u) := span_digits s in
  match d, decimal 0 d, unit_ns u with
  | String _ _, Some n, Some k =>
      if n * k <=? GoInt.max_int then (n * k, None)
      else (0, Some ("time: invalid duration " +:+ s))
  | _, _, _ => (0, Some ("time: invalid duration " +:+ s))
  end.

(** [int(f)]: truncation toward zero; values that do not fit give the
    smallest [int], as the conversion instruction of amd64 does. *)
Definition f2i (f : float) : Z :=
  match Prim2SF f with
  | S754_zero _ => 0
  | S754_finite s m e =>
      let a := if 0 <=? e then Z.pos m * 2 ^ e else Z.pos m / 2 ^ (- e) in
      let z := if s then - a else a in
      if (GoInt.min_int <=? z) && (z <=? GoInt.max_int) then z
      else GoInt.min_int
  | _ => GoInt.min_int
  end.

Definition pow_rest (x y : float) : float :=
  if (y =? 1)%float then x
  else if (y =? 0.5)%float then PrimFloat.sqrt x
  else nan.

Definition seinfeld_float64 (c : seinfeld.LandUseCategory) : float :=
  match c with
  | seinfeld.Evergreen => 0
  | seinfeld.Deciduous => 1
  | seinfeld.Grass => 2
  | seinfeld.Desert => 3
  | seinfeld.Shrubs => 4
  end%float.

Definition wesely_float64 (c : wesely1989.LandUseCategory) : float :=
  match c with
  | wesely1989.Urban => 0
  | wesely1989.Agricultural => 1
  | wesely1989.Range => 2
  | wesely1989.Deciduous => 3
  | wesely1989.Coniferous => 4
  | wesely1989.MixedForest => 5
  | wesely1989.Water => 6
  | wesely1989.Barren => 7
  | wesely1989.Wetland => 8
  | wesely1989.RangeAg => 9
  | wesely1989.RockyShrubs => 10
  end%float.

(** The variables of the reference data set: one record of a small domain
    with two layers, one row and two columns. *)
Definition records (varName : string) : option DenseArray :=
  if bool_decide (varName = "PH") then
    Some (mkDense [0; 0; 980.665; 1961.33]%float [2; 1; 2])
  else if bool_decide (varName = "PHB") then
    Some (mkDense [100; 2500; 100; 2500]%float [2; 1; 2])
  else if bool_decide (varName = "T") then
    Some (mkDense [0; 10; 1.5; 12]%float [2; 1; 2])
  else if bool_decide (varName = "P") then
    Some (mkDense [1300; 650; 300; 150]%float [2; 1; 2])
  else if bool_decide (varName = "PB") then
    Some (mkDense [100000; 50000; 90000; 45000]%float [2; 1; 2])
  else if bool_decide (varName = "LU_INDEX") then
    Some (mkDense [17; 24]%float [1; 2])
  else if bool_decide (varName = "SWDOWN") then
    Some (mkDense [350; 0]%float [1; 2])
  else if bool_decide (varName = "GLW") then
    Some (mkDense [300; 280.5]%float [1; 2])
  else None.

(** The raw producer of the reference world.  Files that follow the template
    [wrfout_[DATE]] hold every variable of [records]; files that follow
    [surface_[DATE]] lack the baseline fields [PHB] and [PB]; no other file
    exists.  The world counts the reads that were tried. *)
Definition nextDataNCF (template format varName : string) (start end_ : date)
    (recordDelta fileDelta : Z) (msgChan : option nat)
  : Exec (State nat) (sparse.ptr * option error) :=
  fun st =>
    let st' := mkState (S (world st)) (applied st) in
    let missing := (Ret (None, Some ("variable " +:+ varName +:+ " not found")), st') in
    if bool_decide (template = "wrfout_[DATE]") then
      match records varName with
      | Some a => (Ret (Some a, None), st')
      | None => missing
      end
    else if bool_decide (template = "surface_[DATE]") then
      if bool_decide (varName = "PHB") || bool_decide (varName = "PB") then missing
      else match records varName with
           | Some a => (Ret (Some a, None), st')
           | None => missing
           end
    else (Ret (None, Some ("open " +:+ template +:+ ": no such file")), st').

#[local] Instance env : Extern :=
  Build_Extern nat date nat pow_rest 9.80665%float f2i seinfeld_float64
    wesely_float64 "20060102" time_Parse time_ParseDuration nextDataNCF.

(** A raw producer that yields the same grid at every pull. *)
Definition constant (a : DenseArray) : @NextData env :=
  fun st => (Ret (Some a, None), mkState (S (world st)) (applied st)).

(** A raw producer whose every pull fails with the given error. *)
Definition failing (e : error) : @NextData env :=
  fun st => (Ret (None, Some e), mkState (S (world st)) (applied st)).

Definition st0 : State nat := mkState 0%nat 0%nat.

End Ref.

Example ref_f2i_3 : Ref.f2i 3.9%float = 3 /\ Ref.f2i (-2.5)%float = -2
  /\ Ref.f2i 40%float = 40 /\ Ref.f2i nan = GoInt.min_int.
Proof. vm_compute. auto. Qed.

Example ref_time_Parse_ok :
  Ref.time_Parse "20060102" "20160229" = ((2016, 2, 29), None)
  /\ snd (Ref.time_Parse "20060102" "20150229") <> None
  /\ snd (Ref.time_Parse "20060102" "2016-01-01") <> None.
Proof. vm_compute. repeat split; discriminate. Qed.

Example ref_ParseDuration_ok :
  Ref.time_ParseDuration "1h" = (3600000000000, None)
  /\ Ref.time_ParseDuration "24h" = (86400000000000, None).
Proof. vm_compute. auto. Qed.

Example temperature_closed_form :
  @thetaPerturbToTemperature Ref.env 10 101300 = 310%float.
Proof. reflexivity. Qed.

(** * Properties *)

(** ** Integer wrap-around *)

Module GoIntFacts.
Import GoInt.

Lemma wrap_small (z : Z) : in_range z -> wrap z = z.
Proof.
  unfold in_range, min_int, max_int, wrap. intros Hz.
  rewrite Z.mod_small; lia.
Qed.

Lemma wrap_mul_l (a b : Z) : wrap (wrap a * b) = wrap (a * b).
Proof.
  unfold wrap. f_equal.
  pose proof (Z.div_mod (a + 2 ^ 63) (2 ^ 64) ltac:(lia)) as Hd.
  set (r := (a + 2 ^ 63) mod 2 ^ 64) in *.
  set (q := (a + 2 ^ 63) / 2 ^ 64) in *.
  replace ((r - 2 ^ 63) * b + 2 ^ 63)
    with (a * b + 2 ^ 63 + (- q * b) * 2 ^ 64) by lia.
  apply Z_mod_plus_full.
Qed.

Lemma wrap_in_range (z : Z) : in_range (wrap z).
Proof.
  unfold in_range, min_int, max_int, wrap.
  pose proof (Z.mod_pos_bound (z + 2 ^ 63) (2 ^ 64) ltac:(lia)). lia.
Qed.

End GoIntFacts.

(** ** Slices *)

Module SliceFacts.

Lemma get_lookup {A} (s : list A) (i : Z) (a : A) :
  0 <= i -> s !! Z.to_nat i = Some a -> Slice.get s i = Ret a.
Proof.
  intros Hi Hl. unfold Slice.get.
  pose proof (lookup_lt_Some _ _ _ Hl) as Hlt.
  replace (0 <=? i) with true by (symmetry; apply Z.leb_le; lia).
  replace (i <? Z.of_nat (length s)) with true by (symmetry; apply Z.ltb_lt; lia).
  simpl. now rewrite Hl.
Qed.

Lemma get_outside {A} (s : list A) (i : Z) :
  ~ (0 <= i < Z.of_nat (length s)) ->
  Slice.get s i = Panic (IndexOutOfRange i (Z.of_nat (length s))).
Proof.
  intros Hi. unfold Slice.get.
  destruct (0 <=? i) eqn:H0; destruct (i <? Z.of_nat (length s)) eqn:H1;
    simpl; try reflexivity.
  apply Z.leb_le in H0. apply Z.ltb_lt in H1. lia.
Qed.

Lemma set_inside {A} (s : list A) (i : Z) (v : A) :
  0 <= i < Z.of_nat (length s) ->
  Slice.set s i v = Ret (<[Z.to_nat i := v]> s).
Proof.
  intros Hi. unfold Slice.set.
  replace (0 <=? i) with true by (symmetry; apply Z.leb_le; lia).
  replace (i <? Z.of_nat (length s)) with true by (symmetry; apply Z.ltb_lt; lia).
  reflexivity.
Qed.

End SliceFacts.

(** ** A weakest-precondition calculus for [Exec]

    [wp m N X st]: run from [st], [m] either returns a value and a state that
    satisfy [N], or panics with a panic and a state that satisfy [X]. *)

Section Wp.
Context {St : Type}.

Definition wp {A} (m : Exec St A) (N : A -> St -> Prop) (X : panic -> St -> Prop)
    (st : St) : Prop :=
  match m st with
  | (Ret a, st') => N a st'
  | (Panic p, st') => X p st'
  end.

Lemma wp_ret {A} (a : A) N X st : N a st -> wp (ret a) N X st.
Proof. exact id. Qed.

Lemma wp_raise {A} (p : panic) (N : A -> St -> Prop) X st :
  X p st -> wp (raise p) N X st.
Proof. exact id. Qed.

Lemma wp_lift {A} (o : outcome A) N X st :
  match o with Ret a => N a st | Panic p => X p st end -> wp (lift o) N X st.
Proof. unfold wp, lift. now destruct o. Qed.

Lemma wp_bind {A B} (m : Exec St A) (k : A -> Exec St B) N X st :
  wp m (fun a st' => wp (k a) N X st') X st -> wp (bind m k) N X st.
Proof. unfold wp, bind. destruct (m st) as [[a|p] st']; auto. Qed.

Lemma wp_mono {A} (m : Exec St A) (N N' : A -> St -> Prop) (X X' : panic -> St -> Prop) st :
  wp m N X st ->
  (forall a st', N a st' -> N' a st') ->
  (forall p st', X p st' -> X' p st') ->
  wp m N' X' st.
Proof. unfold wp. destruct (m st) as [[a|p] st']; auto. Qed.

(** What a [wp] without panics says about the run. *)
Lemma wp_returns {A} (m : Exec St A) N st :
  wp m N (fun _ _ => False) st -> exists a st', m st = (Ret a, st') /\ N a st'.
Proof. unfold wp. destruct (m st) as [[a|p] st']; [eauto | tauto]. Qed.

(** What a [wp] whose normal exit is impossible says about the run. *)
Lemma wp_panics {A} (m : Exec St A) X st :
  wp m (fun _ _ => False) X st -> exists p st', m st = (Panic p, st') /\ X p st'.
Proof. unfold wp. destruct (m st) as [[a|p] st']; [tauto | eauto]. Qed.

(** A run whose exceptional exit is closed returns. *)
Lemma wp_close_panic {A} (m : Exec St A) N X st :
  wp m N X st -> (forall p st', X p st' -> False) ->
  exists a st', m st = (Ret a, st') /\ N a st'.
Proof.
  intros Hw HX. apply wp_returns. eapply wp_mono; [exact Hw | auto | exact HX].
Qed.

(** A run whose normal exit is closed panics. *)
Lemma wp_close_normal {A} (m : Exec St A) N X st :
  wp m N X st -> (forall a st', N a st' -> False) ->
  exists p st', m st = (Panic p, st') /\ X p st'.
Proof.
  intros Hw HN. apply wp_panics. eapply wp_mono; [exact Hw | exact HN | auto].
Qed.

Lemma wp_forRange {Acc} (I : Z -> Acc -> St -> Prop) X n lo
    (body : Z -> Acc -> Exec St Acc) s st :
  I lo s st ->
  (forall i s st, lo <= i < lo + Z.of_nat n -> I i s st ->
     wp (body i s) (fun s' st' => I (i + 1) s' st') X st) ->
  wp (forRange n lo body s) (fun s' st' => I (lo + Z.of_nat n) s' st') X st.
Proof.
  revert lo s st. induction n as [|n IH]; intros lo s st H0 Hbody.
  - simpl. apply wp_ret. now replace (lo + Z.of_nat 0) with lo by lia.
  - simpl forRange. apply wp_bind.
    eapply wp_mono; [apply (Hbody lo s st); [lia | exact H0] | | auto].
    intros s' st' HI. simpl.
    replace (lo + Z.of_nat (S n)) with (lo + 1 + Z.of_nat n) by lia.
    apply IH; [exact HI |].
    intros i s0 st0 Hi. apply Hbody. lia.
Qed.

Lemma wp_forUpTo {Acc} (I : Z -> Acc -> St -> Prop) X hi
    (body : Z -> Acc -> Exec St Acc) s st :
  0 <= hi ->
  I 0 s st ->
  (forall i s st, 0 <= i < hi -> I i s st ->
     wp (body i s) (fun s' st' => I (i + 1) s' st') X st) ->
  wp (forUpTo hi body s) (fun s' st' => I hi s' st') X st.
Proof.
  intros Hhi H0 Hbody. unfold forUpTo.
  pose proof (wp_forRange I X (Z.to_nat hi) 0 body s st H0) as Hw.
  rewrite Z2Nat.id in Hw by lia. simpl in Hw. apply Hw.
  intros i s0 st0 Hi. apply Hbody. lia.
Qed.

Lemma wp_forEachFrom {A Acc} (I : Z -> Acc -> St -> Prop) X (xs : list A) i0
    (body : Z -> A -> Acc -> Exec St Acc) s st :
  I i0 s st ->
  (forall k x s st, xs !! k = Some x -> I (i0 + Z.of_nat k) s st ->
     wp (body (i0 + Z.of_nat k) x s)
        (fun s' st' => I (i0 + Z.of_nat k + 1) s' st') X st) ->
  wp (forEachFrom i0 xs body s)
     (fun s' st' => I (i0 + Z.of_nat (length xs)) s' st') X st.
Proof.
  revert i0 s st. induction xs as [|x xs IH]; intros i0 s st H0 Hbody.
  - simpl. apply wp_ret. now replace (i0 + Z.of_nat 0) with i0 by lia.
  - simpl forEachFrom. apply wp_bind.
    pose proof (Hbody 0%nat x s st eq_refl) as Hx.
    replace (i0 + Z.of_nat 0) with i0 in Hx by lia.
    eapply wp_mono; [apply Hx; exact H0 | | auto].
    intros s' st' HI. simpl.
    replace (i0 + Z.of_nat (S (length xs)))
      with (i0 + 1 + Z.of_nat (length xs)) by lia.
    apply IH; [exact HI |].
    intros k y s0 st0 Hk HIk.
    pose proof (Hbody (S k) y s0 st0 Hk) as Hy.
    replace (i0 + Z.of_nat (S k)) with (i0 + 1 + Z.of_nat k) in Hy by lia.
    apply Hy. exact HIk.
Qed.

Lemma wp_forEach {A Acc} (I : Z -> Acc -> St -> Prop) X (xs : list A)
    (body : Z -> A -> Acc -> Exec St Acc) s st :
  I 0 s st ->
  (forall k x s st, xs !! k = Some x -> I (Z.of_nat k) s st ->
     wp (body (Z.of_nat k) x s) (fun s' st' => I (Z.of_nat k + 1) s' st') X st) ->
  wp (forEach xs body s) (fun s' st' => I (Z.of_nat (length xs)) s' st') X st.
Proof.
  intros H0 Hbody. unfold forEach.
  apply (wp_forEachFrom I X xs 0 body s st H0). exact Hbody.
Qed.

End Wp.

(** Elementwise computations performed after [st]: [n] more than in [st]. *)
Definition advance {World} (n : Z) (st : State World) : State World :=
  mkState (world st) (Z.to_nat n + applied st).

Lemma wp_tick {World} (N : unit -> State World -> Prop) X (st : State World) :
  N tt (mkState (world st) (S (applied st))) -> wp tick N X st.
Proof. exact id. Qed.

Lemma advance_0 {World} (st : State World) : advance 0 st = st.
Proof. now destruct st. Qed.

Lemma advance_tick {World} (n : Z) (st : State World) :
  0 <= n ->
  mkState (world (advance n st)) (S (applied (advance n st))) = advance (n + 1) st.
Proof.
  intros Hn. unfold advance. simpl. f_equal. rewrite Z2Nat.inj_add by lia. simpl. lia.
Qed.

(** ** Dense arrays *)

Module SparseFacts.
Import GoInt GoIntFacts.

Lemma arrsize_fold (dims : list Z) (a : Z) :
  fold_left GoInt.mul dims (wrap a) = wrap (a * sparse.size dims).
Proof.
  revert a. induction dims as [|d dims IH]; intros a; simpl.
  - now rewrite Z.mul_1_r.
  - unfold GoInt.mul at 2. rewrite wrap_mul_l, IH. f_equal. lia.
Qed.

(** [arrsize] is the true product whenever that is a valid [int]. *)
Lemma arrsize_exact (dims : list Z) :
  in_range (sparse.size dims) -> sparse.arrsize dims = sparse.size dims.
Proof.
  intros Hr. unfold sparse.arrsize.
  change 1 with (wrap 1) at 1. rewrite arrsize_fold, Z.mul_1_l.
  now apply wrap_small.
Qed.

Lemma size_nonneg (dims : list Z) :
  forallb (fun d => 0 <=? d) dims = true -> 0 <= sparse.size dims.
Proof.
  induction dims as [|d dims IH]; simpl; [lia|].
  intros H. apply andb_prop in H as [Hd Hds]. apply Z.leb_le in Hd.
  specialize (IH Hds). nia.
Qed.

Lemma well_formed_spec (A : DenseArray) :
  sparse.well_formed A = true ->
  0 <= sparse.size (Shape A) <= max_int
  /\ Z.of_nat (length (Elements A)) = sparse.size (Shape A).
Proof.
  unfold sparse.well_formed. intros H.
  apply andb_prop in H as [H H3]. apply andb_prop in H as [H1 H2].
  apply size_nonneg in H1. apply Z.leb_le in H2. apply Z.eqb_eq in H3. lia.
Qed.

Lemma ZerosDense_spec (dims : list Z) :
  0 <= sparse.size dims <= max_int ->
  sparse.ZerosDense dims
  = Ret (mkDense (replicate (Z.to_nat (sparse.size dims)) 0%float) dims).
Proof.
  intros Hr. unfold sparse.ZerosDense, Slice.make.
  rewrite arrsize_exact by (unfold in_range, min_int, max_int in *; lia).
  replace (sparse.size dims <? 0) with false by (symmetry; apply Z.ltb_ge; lia).
  reflexivity.
Qed.

Ltac unwrap :=
  repeat match goal with
         | |- context [wrap ?z] =>
             rewrite (wrap_small z)
               by (unfold in_range, min_int, max_int in *; nia)
         end.

Lemma offset2 (n0 n1 j i : Z) :
  0 <= j < n0 -> 0 <= i < n1 -> n0 * n1 <= max_int ->
  sparse.offset [n0; n1] [j; i] 0 = j * n1 + i.
Proof.
  intros Hj Hi Hn. simpl. unfold sparse.arrsize. simpl.
  unfold GoInt.add, GoInt.mul. unwrap. lia.
Qed.

Lemma offset3 (n0 n1 n2 k j i : Z) :
  0 <= k < n0 -> 0 <= j < n1 -> 0 <= i < n2 -> n0 * (n1 * n2) <= max_int ->
  sparse.offset [n0; n1; n2] [k; j; i] 0 = (k * n1 + j) * n2 + i.
Proof.
  intros Hk Hj Hi Hn. simpl. unfold sparse.arrsize. simpl.
  unfold GoInt.add, GoInt.mul.
  assert (0 <= n1 * n2 <= max_int) by (unfold max_int in *; nia).
  assert (0 <= k * (n1 * n2) <= max_int) by (unfold max_int in *; nia).
  assert (0 <= j * n2 < n1 * n2) by nia.
  assert (0 <= k * (n1 * n2) + j * n2 + i <= max_int) by (unfold max_int in *; nia).
  unwrap. lia.
Qed.

Lemma Index1d_2 (A : DenseArray) (n0 n1 j i : Z) :
  Shape A = [n0; n1] -> 0 <= j < n0 -> 0 <= i < n1 -> n0 * n1 <= max_int ->
  sparse.Index1d A [j; i] = Ret (j * n1 + i).
Proof.
  intros HS Hj Hi Hn. unfold sparse.Index1d, sparse.checkIndex. rewrite HS. simpl.
  replace (j <? n0) with true by (symmetry; apply Z.ltb_lt; lia).
  replace (i <? n1) with true by (symmetry; apply Z.ltb_lt; lia).
  simpl. f_equal. change (GoInt.add (GoInt.add 0 (GoInt.mul j (sparse.arrsize [n1])))
                            (GoInt.mul i (sparse.arrsize [])))
    with (sparse.offset [n0; n1] [j; i] 0).
  now apply offset2.
Qed.

Lemma Index1d_3 (A : DenseArray) (n0 n1 n2 k j i : Z) :
  Shape A = [n0; n1; n2] ->
  0 <= k < n0 -> 0 <= j < n1 -> 0 <= i < n2 -> n0 * (n1 * n2) <= max_int ->
  sparse.Index1d A [k; j; i] = Ret ((k * n1 + j) * n2 + i).
Proof.
  intros HS Hk Hj Hi Hn. unfold sparse.Index1d, sparse.checkIndex. rewrite HS. simpl.
  replace (k <? n0) with true by (symmetry; apply Z.ltb_lt; lia).
  replace (j <? n1) with true by (symmetry; apply Z.ltb_lt; lia).
  replace (i <? n2) with true by (symmetry; apply Z.ltb_lt; lia).
  simpl. f_equal. rewrite <- (offset3 n0 n1 n2 k j i) by assumption. reflexivity.
Qed.

(** The cell of a well-formed array at a valid flat position. *)
Lemma lookup_flat (A : DenseArray) (t : Z) :
  0 <= t < Z.of_nat (length (Elements A)) ->
  exists v, Elements A !! Z.to_nat t = Some v.
Proof.
  intros Ht. apply lookup_lt_is_Some_2. lia.
Qed.

End SparseFacts.

(** ** The derived producers *)

Section Producers.
Context {E : Extern}.
Import SparseFacts SliceFacts.

Lemma wp_call {A} (m : Go A) (N : A -> State World -> Prop) X st a st' :
  m st = (Ret a, st') -> N a st' -> wp m N X st.
Proof. unfold wp. now intros ->. Qed.

(** Well-formed arrays of one shape hold the same number of elements. *)
Lemma same_shape_length (a b : DenseArray) :
  sparse.well_formed a = true -> sparse.well_formed b = true ->
  Shape a = Shape b -> length (Elements a) = length (Elements b).
Proof.
  intros Ha Hb HS.
  apply well_formed_spec in Ha as [_ Ha]. apply well_formed_spec in Hb as [_ Hb].
  rewrite HS in Ha. lia.
Qed.

(** *** Temperature *)

(** The loop of [cmaqTemperatureConvert] on well-formed grids of one shape. *)
Lemma temperature_loop (theta p T0 : DenseArray) (st : State World) :
  length (Elements p) = length (Elements theta) ->
  length (Elements T0) = length (Elements theta) ->
  wp (forEach (Elements theta)
        (fun i tp (T : DenseArray) =>
           do p' <- lift (sparse.deref (Some p));
           do pi <- lift (Slice.get (Elements p') i);
           do _ <- tick;
           do e <- lift (Slice.set (Elements T) i (thetaPerturbToTemperature tp pi));
           ret (mkDense e (Shape T)))
        T0)
     (fun T st' =>
        Shape T = Shape T0
        /\ length (Elements T) = length (Elements theta)
        /\ (forall (i : nat) tp pi,
              Elements theta !! i = Some tp -> Elements p !! i = Some pi ->
              Elements T !! i = Some (thetaPerturbToTemperature tp pi))
        /\ st' = advance (Z.of_nat (length (Elements theta))) st)
     (fun _ _ => False) st.
Proof.
  intros Hp HT0.
  eapply wp_mono;
    [ apply (wp_forEach
        (fun t (T : DenseArray) st' =>
           Shape T = Shape T0
           /\ length (Elements T) = length (Elements theta)
           /\ (forall (i : nat) tp pi, (Z.of_nat i < t) ->
                 Elements theta !! i = Some tp -> Elements p !! i = Some pi ->
                 Elements T !! i = Some (thetaPerturbToTemperature tp pi))
           /\ st' = advance t st)
        (fun _ _ => False))
    | | auto ].
  - repeat split; auto; [intros; lia | now rewrite advance_0].
  - intros k tp T st' Hk (HS & HL & Hcells & ->).
    pose proof (lookup_lt_Some _ _ _ Hk) as Hlt.
    destruct (lookup_lt_is_Some_2 (Elements p) k ltac:(lia)) as [pi Hpi].
    apply wp_bind, wp_lift; simpl.
    apply wp_bind, wp_lift.
    rewrite (get_lookup _ _ pi) by (rewrite ?Nat2Z.id; auto; lia).
    apply wp_bind, wp_tick.
    apply wp_bind, wp_lift. rewrite set_inside by lia.
    apply wp_ret. simpl. rewrite Nat2Z.id.
    repeat split; auto.
    + now rewrite length_insert.
    + intros i tp' pi' Hi Htp Hpi'.
      destruct (decide (i = k)) as [-> | Hne].
      * rewrite list_lookup_insert_eq by lia. congruence.
      * rewrite list_lookup_insert_ne by auto. apply (Hcells i); auto. lia.
    + unfold advance. simpl. f_equal. lia.
  - intros T st' (HS & HL & Hcells & ->). repeat split; auto.
    intros i tp pi Htp Hpi. apply (Hcells i tp pi); auto.
    pose proof (lookup_lt_Some _ _ _ Htp). lia.
Qed.

(** C1. On well-formed grids of one shape the temperature combinator returns a
    grid of that shape whose every cell is
    [(theta'[cell] + 300) * (p[cell] / 101300) ^ 0.2854], computed in
    [float64] with [math.Pow]; and at [theta' = 0], [p = 101300] the formula
    gives exactly [300]. *)
Theorem temperature_elementwise (thetaFunc pFunc : NextData)
    (st st1 st2 : State World) (theta p : DenseArray) :
  thetaFunc st = (Ret (Some theta, None), st1) ->
  pFunc st1 = (Ret (Some p, None), st2) ->
  sparse.well_formed theta = true ->
  sparse.well_formed p = true ->
  Shape theta = Shape p ->
  (exists T : DenseArray,
      cmaqTemperatureConvert thetaFunc pFunc st
      = (Ret (Some T, None), advance (Z.of_nat (length (Elements theta))) st2)
      /\ Shape T = Shape theta
      /\ length (Elements T) = length (Elements theta)
      /\ forall (i : nat) (tp pi : float),
           Elements theta !! i = Some tp -> Elements p !! i = Some pi ->
           Elements T !! i
           = Some ((tp + 300) * math_Pow (pi / 101300) 0.2854)%float)
  /\ thetaPerturbToTemperature 0 101300 = 300%float.
Proof.
  intros Hth Hp Wth Wp HS. split; [|reflexivity].
  assert (Hw : wp (cmaqTemperatureConvert thetaFunc pFunc)
                 (fun r st' =>
                    exists T : DenseArray,
                      r = (Some T, None)
                      /\ st' = advance (Z.of_nat (length (Elements theta))) st2
                      /\ Shape T = Shape theta
                      /\ length (Elements T) = length (Elements theta)
                      /\ forall (i : nat) (tp pi : float),
                           Elements theta !! i = Some tp -> Elements p !! i = Some pi ->
                           Elements T !! i = Some (thetaPerturbToTemperature tp pi))
                 (fun _ _ => False) st).
  { unfold cmaqTemperatureConvert.
    apply wp_bind. eapply wp_call; [exact Hth|]. simpl.
    apply wp_bind. eapply wp_call; [exact Hp|]. simpl.
    apply wp_bind, wp_lift; simpl.
    pose proof (well_formed_spec _ Wth) as [Hsz Hlen].
    apply wp_bind, wp_lift. rewrite ZerosDense_spec by exact Hsz.
    apply wp_bind.
    eapply wp_mono; [apply (temperature_loop theta p) | | auto].
    - symmetry. now apply same_shape_length.
    - simpl. rewrite length_replicate. lia.
    - intros T st' (HST & HL & Hcells & ->). apply wp_ret.
      exists T. repeat split; auto. }
  apply wp_returns in Hw as (r & st' & Hrun & T & -> & -> & HST & HL & Hcells).
  exists T. repeat split; auto.
Qed.

(** *** Pressure and radiation *)

(** [AddDense] on arrays of one shape adds elementwise, in place. *)
Lemma AddDense_spec (A B : DenseArray) (st : State World) :
  Shape A = Shape B ->
  length (Elements A) = length (Elements B) ->
  wp (sparse.AddDense A B)
     (fun R st' =>
        Shape R = Shape A
        /\ length (Elements R) = length (Elements A)
        /\ (forall (i : nat) x y,
              Elements A !! i = Some x -> Elements B !! i = Some y ->
              Elements R !! i = Some (x + y)%float)
        /\ st' = advance (Z.of_nat (length (Elements B))) st)
     (fun _ _ => False) st.
Proof.
  intros HS HL. unfold sparse.AddDense.
  rewrite bool_decide_eq_true_2 by exact HS.
  eapply wp_mono;
    [ apply (wp_forEach
        (fun t (R : DenseArray) st' =>
           Shape R = Shape A
           /\ length (Elements R) = length (Elements A)
           /\ (forall (i : nat) x y, Z.of_nat i < t ->
                 Elements A !! i = Some x -> Elements B !! i = Some y ->
                 Elements R !! i = Some (x + y)%float)
           /\ (forall (i : nat), t <= Z.of_nat i ->
                 Elements R !! i = Elements A !! i)
           /\ st' = advance t st)
        (fun _ _ => False))
    | | auto ].
  - repeat split; auto; [intros; lia | now rewrite advance_0].
  - intros k y R st' Hk (HSR & HLR & Hdone & Hrest & ->).
    pose proof (lookup_lt_Some _ _ _ Hk) as Hlt.
    destruct (lookup_lt_is_Some_2 (Elements A) k ltac:(lia)) as [x Hx].
    apply wp_bind, wp_lift.
    rewrite (get_lookup _ _ x)
      by first [lia | rewrite Nat2Z.id, Hrest by lia; exact Hx].
    apply wp_bind, wp_tick.
    apply wp_bind, wp_lift. rewrite set_inside by lia.
    apply wp_ret. simpl. rewrite Nat2Z.id.
    repeat split; auto.
    + now rewrite length_insert.
    + intros i x' y' Hi Hx' Hy'.
      destruct (decide (i = k)) as [-> | Hne].
      * rewrite list_lookup_insert_eq by lia. congruence.
      * rewrite list_lookup_insert_ne by auto. apply (Hdone i); auto. lia.
    + intros i Hi. rewrite list_lookup_insert_ne by lia. apply Hrest. lia.
    + unfold advance. simpl. f_equal. lia.
  - intros R st' (HSR & HLR & Hdone & _ & ->). repeat split; auto.
    intros i x y Hx Hy. apply (Hdone i x y); auto.
    pose proof (lookup_lt_Some _ _ _ Hy). lia.
Qed.

(** The shared shape of the two adding combinators: pull [first], pull
    [second], copy the first grid and add the second to it. *)
Definition addPulls (first second : NextData) : NextData :=
  do '(x, err) <- first;
  match err with Some err => ret (None, Some err) | None =>
  do '(y, err) <- second;
  match err with Some err => ret (None, Some err) | None =>
  do x' <- lift (sparse.deref x);
  let R := sparse.Copy x' in
  do y' <- lift (sparse.deref y);
  do R <- sparse.AddDense R y';
  ret (Some R, None)
  end end.

Lemma cmaqPressureConvert_addPulls (pFunc pbFunc : NextData) :
  cmaqPressureConvert pFunc pbFunc = addPulls pbFunc pFunc.
Proof. reflexivity. Qed.

Lemma cmaqRadiationDown_addPulls (swDownFunc glwFunc : NextData) :
  cmaqRadiationDown swDownFunc glwFunc = addPulls swDownFunc glwFunc.
Proof. reflexivity. Qed.

Lemma addPulls_sum (first second : NextData) (st st1 st2 : State World)
    (x y : DenseArray) :
  first st = (Ret (Some x, None), st1) ->
  second st1 = (Ret (Some y, None), st2) ->
  sparse.well_formed x = true ->
  sparse.well_formed y = true ->
  Shape x = Shape y ->
  exists R : DenseArray,
    addPulls first second st
    = (Ret (Some R, None), advance (Z.of_nat (length (Elements y))) st2)
    /\ Shape R = Shape x
    /\ length (Elements R) = length (Elements x)
    /\ forall (i : nat) (u v : float),
         Elements x !! i = Some u -> Elements y !! i = Some v ->
         Elements R !! i = Some (u + v)%float.
Proof.
  intros H1 H2 Wx Wy HS.
  assert (Hw : wp (addPulls first second)
                 (fun r st' =>
                    exists R : DenseArray,
                      r = (Some R, None)
                      /\ st' = advance (Z.of_nat (length (Elements y))) st2
                      /\ Shape R = Shape x
                      /\ length (Elements R) = length (Elements x)
                      /\ forall (i : nat) (u v : float),
                           Elements x !! i = Some u -> Elements y !! i = Some v ->
                           Elements R !! i = Some (u + v)%float)
                 (fun _ _ => False) st).
  { unfold addPulls.
    apply wp_bind. eapply wp_call; [exact H1|]. simpl.
    apply wp_bind. eapply wp_call; [exact H2|]. simpl.
    apply wp_bind, wp_lift; simpl.
    apply wp_bind, wp_lift; simpl.
    apply wp_bind.
    eapply wp_mono; [apply AddDense_spec | | auto].
    - exact HS.
    - simpl. now apply same_shape_length.
    - intros R st' (HSR & HLR & Hcells & ->). apply wp_ret.
      exists R. repeat split; auto. }
  apply wp_returns in Hw as (r & st' & Hrun & R & -> & -> & HSR & HLR & Hcells).
  exists R. repeat split; auto.
Qed.

(** C5. On well-formed grids of one shape the pressure combinator returns the
    elementwise sum of the baseline [PB] and the perturbation [P], and the
    radiation combinator the elementwise sum of [SWDOWN] and [GLW]; each
    result has the shape of the inputs. *)
Theorem pressure_radiation_sum (f1 f2 : NextData) (st st1 st2 : State World)
    (x y : DenseArray) :
  f1 st = (Ret (Some x, None), st1) ->
  f2 st1 = (Ret (Some y, None), st2) ->
  sparse.well_formed x = true ->
  sparse.well_formed y = true ->
  Shape x = Shape y ->
  (exists P : DenseArray,
      cmaqPressureConvert f2 f1 st
      = (Ret (Some P, None), advance (Z.of_nat (length (Elements y))) st2)
      /\ Shape P = Shape x /\ Shape P = Shape y
      /\ length (Elements P) = length (Elements x)
      /\ forall (i : nat) (pb p : float),
           Elements x !! i = Some pb -> Elements y !! i = Some p ->
           Elements P !! i = Some (pb + p)%float)
  /\ (exists rad : DenseArray,
      cmaqRadiationDown f1 f2 st
      = (Ret (Some rad, None), advance (Z.of_nat (length (Elements y))) st2)
      /\ Shape rad = Shape x /\ Shape rad = Shape y
      /\ length (Elements rad) = length (Elements x)
      /\ forall (i : nat) (swDown glw : float),
           Elements x !! i = Some swDown -> Elements y !! i = Some glw ->
           Elements rad !! i = Some (swDown + glw)%float).
Proof.
  intros H1 H2 Wx Wy HS.
  destruct (addPulls_sum f1 f2 st st1 st2 x y H1 H2 Wx Wy HS)
    as (R & Hrun & HSR & HLR & Hcells).
  split; exists R.
  - rewrite cmaqPressureConvert_addPulls. repeat split; auto; congruence.
  - rewrite cmaqRadiationDown_addPulls. repeat split; auto; congruence.
Qed.

End Producers.

(** ** Facts of binary64 arithmetic *)

Module FloatFacts.

(** Neither an infinity nor a NaN. *)
Definition finiteF (x : float) : bool :=
  match Prim2SF x with
  | S754_zero _ | S754_finite _ _ _ => true
  | _ => false
  end.

(** Finite and greater than zero. *)
Definition positiveF (x : float) : bool :=
  match Prim2SF x with
  | S754_finite false _ _ => true
  | _ => false
  end.

Lemma SFadd_comm (prec emax : Z) (x y : spec_float) :
  SFadd prec emax x y = SFadd prec emax y x.
Proof.
  destruct x as [sx|sx| |sx mx ex], y as [sy|sy| |sy my ey]; simpl; try reflexivity.
  - now destruct sx, sy.
  - now destruct sx, sy.
  - rewrite (Z.min_comm ey ex). f_equal. apply Z.add_comm.
Qed.

Lemma add_comm (x y : float) : (x + y = y + x)%float.
Proof. apply Prim2SF_inj. rewrite !add_spec. apply SFadd_comm. Qed.

Lemma sub_self (b : float) : finiteF b = true -> (b - b = 0)%float.
Proof.
  unfold finiteF. intros Hb. apply Prim2SF_inj. rewrite sub_spec.
  destruct (Prim2SF b) as [s|s| |s m e]; try discriminate.
  - now destruct s.
  - unfold SF64sub, SFsub. rewrite Z.sub_diag. reflexivity.
Qed.

(** With a zero perturbation the surface terms cancel exactly. *)
Lemma cancel_at_zero (b : float) :
  finiteF b = true -> (0 + b - 0 - b = 0)%float.
Proof.
  intros Hb.
  assert (H1 : (0 + b - 0 = b)%float
               \/ ((0 + b - 0 = 0)%float /\ exists s, Prim2SF b = S754_zero s)).
  { unfold finiteF in Hb.
    destruct (Prim2SF b) as [s|s| |s m e] eqn:Eb; try discriminate.
    - right. split; [|eauto]. apply Prim2SF_inj.
      rewrite sub_spec, add_spec, Eb. now destruct s.
    - left. apply Prim2SF_inj. rewrite sub_spec, add_spec, Eb. reflexivity. }
  destruct H1 as [-> | [-> [s Es]]].
  - now apply sub_self.
  - apply Prim2SF_inj. rewrite sub_spec, Es. now destruct s.
Qed.

Lemma zero_div (d : float) : positiveF d = true -> (0 / d = 0)%float.
Proof.
  unfold positiveF. intros Hd. apply Prim2SF_inj. rewrite div_spec.
  destruct (Prim2SF d) as [s|s| |s m e]; try discriminate.
  destruct s; [discriminate|]. reflexivity.
Qed.

End FloatFacts.

Section Commutativity.
Context {E : Extern}.

(** C9. The two adding combinators do not depend on the order of their
    inputs: on well-formed grids [a] and [b] of one shape, the pressure
    combinator applied to producers of [(a, b)] and to producers of [(b, a)]
    returns grids with the same shape and the same cells, and so does the
    radiation combinator. *)
Theorem sum_commutes (fa fb : NextData) (a b : DenseArray)
    (st sa sab sb sba : State World) :
  sparse.well_formed a = true ->
  sparse.well_formed b = true ->
  Shape a = Shape b ->
  fa st = (Ret (Some a, None), sa) -> fb sa = (Ret (Some b, None), sab) ->
  fb st = (Ret (Some b, None), sb) -> fa sb = (Ret (Some a, None), sba) ->
  (exists P Q : DenseArray,
      fst (cmaqPressureConvert fa fb st) = Ret (Some P, None)
      /\ fst (cmaqPressureConvert fb fa st) = Ret (Some Q, None)
      /\ Shape P = Shape Q /\ Elements P = Elements Q)
  /\ (exists P Q : DenseArray,
      fst (cmaqRadiationDown fa fb st) = Ret (Some P, None)
      /\ fst (cmaqRadiationDown fb fa st) = Ret (Some Q, None)
      /\ Shape P = Shape Q /\ Elements P = Elements Q).
Proof.
  intros Wa Wb HS Ha1 Hb1 Hb2 Ha2.
  destruct (addPulls_sum fa fb st sa sab a b Ha1 Hb1 Wa Wb HS)
    as (R & HR & HRS & HRL & HRc).
  destruct (addPulls_sum fb fa st sb sba b a Hb2 Ha2 Wb Wa (eq_sym HS))
    as (R' & HR' & HRS' & HRL' & HRc').
  pose proof (same_shape_length a b Wa Wb HS) as Hlen.
  assert (Hel : Elements R = Elements R').
  { apply list_eq. intros i.
    destruct (Elements a !! i) as [u|] eqn:Hu.
    - destruct (lookup_lt_is_Some_2 (Elements b) i) as [v Hv].
      { pose proof (lookup_lt_Some _ _ _ Hu). lia. }
      rewrite (HRc i u v Hu Hv), (HRc' i v u Hv Hu).
      f_equal. apply FloatFacts.add_comm.
    - apply lookup_ge_None in Hu.
      rewrite (proj2 (lookup_ge_None (Elements R) i)) by lia.
      rewrite (proj2 (lookup_ge_None (Elements R') i)) by lia.
      reflexivity. }
  split.
  - exists R', R.
    rewrite (cmaqPressureConvert_addPulls fa fb), (cmaqPressureConvert_addPulls fb fa).
    rewrite HR, HR'.
    repeat split; auto; congruence.
  - exists R, R'.
    rewrite (cmaqRadiationDown_addPulls fa fb), (cmaqRadiationDown_addPulls fb fa).
    rewrite HR, HR'.
    repeat split; auto; congruence.
Qed.

End Commutativity.

(** ** Errors of the upstream producers *)

Section UpstreamErrors.
Context {E : Extern}.

Lemma bind_returns {A B} (m : Go A) (k : A -> Go B) (st st' : State World) (a : A) :
  m st = (Ret a, st') -> bind m k st = k a st'.
Proof. unfold bind. now intros ->. Qed.

(** C7. When an upstream pull returns an error, the pull of the derived
    producer returns that same error with a nil grid, and the state it leaves
    is the state the failing upstream pull left: the next upstream is not
    pulled and the counter of elementwise computations has not moved.  This
    holds when the first upstream fails, when the first succeeds and the
    second fails, and for the one upstream of each land-use remapper. *)
Theorem upstream_error_propagates (u1 u2 : NextData) (w : WRFCmaq)
    (st st1 st2 : State World) (x y : sparse.ptr) (e : error) :
  (u1 st = (Ret (x, Some e), st1) ->
     cmaqTemperatureConvert u1 u2 st = (Ret (None, Some e), st1)
     /\ cmaqPressureConvert u2 u1 st = (Ret (None, Some e), st1)
     /\ cmaqRadiationDown u1 u2 st = (Ret (None, Some e), st1)
     /\ cmaqSeinfeldLandUse u1 st = (Ret (None, Some e), st1)
     /\ cmaqWeselyLandUse u1 st = (Ret (None, Some e), st1)
     /\ cmaqZ0 u1 st = (Ret (None, Some e), st1))
  /\ (u1 st = (Ret (x, None), st1) -> u2 st1 = (Ret (y, Some e), st2) ->
     cmaqTemperatureConvert u1 u2 st = (Ret (None, Some e), st2)
     /\ cmaqPressureConvert u2 u1 st = (Ret (None, Some e), st2)
     /\ cmaqRadiationDown u1 u2 st = (Ret (None, Some e), st2))
  /\ (read w "PH" st = (Ret (x, Some e), st1) ->
     Height w st = (Ret (None, Some e), st1))
  /\ (read w "PH" st = (Ret (x, None), st1) ->
     read w "PHB" st1 = (Ret (y, Some e), st2) ->
     Height w st = (Ret (None, Some e), st2)).
Proof.
  split; [|split; [|split]].
  - intros H1. repeat split.
    all: unfold cmaqTemperatureConvert, cmaqPressureConvert, cmaqRadiationDown,
           cmaqSeinfeldLandUse, cmaqWeselyLandUse, cmaqZ0.
    all: rewrite (bind_returns _ _ _ _ _ H1); reflexivity.
  - intros H1 H2. repeat split.
    all: unfold cmaqTemperatureConvert, cmaqPressureConvert, cmaqRadiationDown.
    all: rewrite (bind_returns _ _ _ _ _ H1); cbv beta iota.
    all: rewrite (bind_returns _ _ _ _ _ H2); reflexivity.
  - intros H1. unfold Height.
    rewrite (bind_returns _ _ _ _ _ H1); reflexivity.
  - intros H1 H2. unfold Height.
    rewrite (bind_returns _ _ _ _ _ H1); cbv beta iota.
    rewrite (bind_returns _ _ _ _ _ H2); reflexivity.
Qed.

End UpstreamErrors.

(** ** Construction *)

Section Construction.
Context {E : Extern}.

(** One hour and one day in nanoseconds, the unit of [time.Duration]. *)
Definition Hour : Z := 3600 * 1000000000.
Definition Day : Z := 24 * Hour.

(** C8. Given that [time.ParseDuration] reads ["1h"] and ["24h"] as it does
    in Go, [NewWRFCmaq] returns an error exactly when [time.Parse] with the
    layout [inDateFormat] rejects the start date or the end date, and then it
    returns no preprocessor; otherwise it returns no error and a preprocessor
    that holds the two parsed times, a record interval of one hour and a file
    interval of twenty-four hours. *)
Theorem NewWRFCmaq_spec (WRFOut startDate endDate : string) (msgChan : option Chan) :
  time_ParseDuration "1h" = (Hour, None) ->
  time_ParseDuration "24h" = (Day, None) ->
  (snd (NewWRFCmaq WRFOut startDate endDate msgChan) <> None
   <-> snd (time_Parse inDateFormat startDate) <> None
       \/ snd (time_Parse inDateFormat endDate) <> None)
  /\ (snd (NewWRFCmaq WRFOut startDate endDate msgChan) <> None
      -> fst (NewWRFCmaq WRFOut startDate endDate msgChan) = None)
  /\ (snd (NewWRFCmaq WRFOut startDate endDate msgChan) = None
      -> exists w : WRFCmaq,
           fst (NewWRFCmaq WRFOut startDate endDate msgChan) = Some w
           /\ start w = fst (time_Parse inDateFormat startDate)
           /\ end_ w = fst (time_Parse inDateFormat endDate)
           /\ recordDelta w = Hour
           /\ fileDelta w = Day
           /\ cmaqOut w = WRFOut).
Proof.
  intros H1 H24. unfold NewWRFCmaq. rewrite H1, H24.
  destruct (time_Parse inDateFormat startDate) as [t1 [e1|]];
    destruct (time_Parse inDateFormat endDate) as [t2 [e2|]]; simpl.
  all: repeat split; try congruence; try tauto; try (intros; discriminate).
  all: try (intros _; eexists; repeat split; reflexivity).
  all: try (intros _; first [left; discriminate | right; discriminate]).
  all: intros [H | H]; congruence.
Qed.

End Construction.

(** ** The lookup tables *)

(** A 1-based code the table has an entry for. *)
Definition valid_code {C : Type} (table : list C) (code : Z) : Prop :=
  1 <= code <= Z.of_nat (length table).

(** C10. The three tables have the same length, 40, so a code that is in
    range for one remapper is in range for all three. *)
Theorem tables_same_length :
  length NLCDseinfeld = 40%nat
  /\ length NLCDwesely = 40%nat
  /\ length NLCDz0 = 40%nat
  /\ forall code : Z,
       (valid_code NLCDseinfeld code <-> valid_code NLCDwesely code)
       /\ (valid_code NLCDwesely code <-> valid_code NLCDz0 code)
       /\ (valid_code NLCDz0 code <-> valid_code NLCDseinfeld code).
Proof.
  repeat split; unfold valid_code in *; simpl in *; lia.
Qed.

(** ** The land-use remappers *)

Section LandUse.
Context {E : Extern}.
Import GoInt GoIntFacts SparseFacts SliceFacts.

Lemma Get_2 (A : DenseArray) (n0 n1 j i : Z) (v : float) :
  Shape A = [n0; n1] -> 0 <= j < n0 -> 0 <= i < n1 -> n0 * n1 <= max_int ->
  Elements A !! Z.to_nat (j * n1 + i) = Some v ->
  sparse.Get A [j; i] = Ret v.
Proof.
  intros HS Hj Hi Hn Hv. unfold sparse.Get.
  rewrite (Index1d_2 A n0 n1) by assumption.
  apply get_lookup; [nia | exact Hv].
Qed.

Lemma SetVal_2 (A : DenseArray) (n0 n1 j i : Z) (x : float) :
  Shape A = [n0; n1] -> 0 <= j < n0 -> 0 <= i < n1 -> n0 * n1 <= max_int ->
  Z.of_nat (length (Elements A)) = n0 * n1 ->
  sparse.SetVal A x [j; i]
  = Ret (mkDense (<[Z.to_nat (j * n1 + i) := x]> (Elements A)) (Shape A)).
Proof.
  intros HS Hj Hi Hn HL. unfold sparse.SetVal.
  rewrite (Index1d_2 A n0 n1) by assumption.
  rewrite set_inside by nia. reflexivity.
Qed.

(** The index a cell value selects in a table: [f2i(v) - 1]. *)
Definition entry (v : float) : Z := GoInt.sub (f2i v) 1.

Lemma entry_valid {C} (table : list C) (v : float) :
  Z.of_nat (length table) <= max_int ->
  valid_code table (f2i v) ->
  entry v = f2i v - 1 /\ 0 <= entry v < Z.of_nat (length table).
Proof.
  unfold valid_code, entry, GoInt.sub. intros Hl Hv.
  rewrite wrap_small by (unfold in_range, min_int, max_int in *; lia). lia.
Qed.

Lemma entry_invalid {C} (table : list C) (v : float) :
  Z.of_nat (length table) <= max_int ->
  in_range (f2i v) ->
  ~ valid_code table (f2i v) ->
  ~ (0 <= entry v < Z.of_nat (length table)).
Proof.
  unfold valid_code, entry, GoInt.sub, in_range, min_int, max_int.
  intros Hl Hr Hv.
  destruct (Z.eq_dec (f2i v) (- 2 ^ 63)) as [Hmin | Hmin].
  - rewrite Hmin. change (wrap (- 2 ^ 63 - 1)) with (2 ^ 63 - 1). lia.
  - rewrite wrap_small by (unfold in_range, min_int, max_int; lia). lia.
Qed.

(** What one table lookup and store establishes for the cell at flat
    position [t]; shared by the three loops. *)
Definition remapped {C} (table : list C) (float64 : C -> float)
    (lu o : DenseArray) (t : nat) : Prop :=
  forall v, Elements lu !! t = Some v ->
    0 <= entry v < Z.of_nat (length table)
    /\ exists c, table !! Z.to_nat (entry v) = Some c
                 /\ Elements o !! t = Some (float64 c).

(** The panic of the first cell whose code has no table entry, reached after
    the [t] cells before it were computed. *)
Definition lookup_panic {C} (table : list C) (lu : DenseArray)
    (st : State World) (p : panic) (st' : State World) : Prop :=
  exists (t : nat) (v : float),
    Elements lu !! t = Some v
    /\ ~ (0 <= entry v < Z.of_nat (length table))
    /\ p = IndexOutOfRange (entry v) (Z.of_nat (length table))
    /\ st' = advance (Z.of_nat t) st.

Definition remap_inv {C} (table : list C) (float64 : C -> float)
    (lu : DenseArray) (shape : list Z) (st : State World)
    (t : Z) (o : DenseArray) (st' : State World) : Prop :=
  Shape o = shape
  /\ length (Elements o) = length (Elements lu)
  /\ (forall t' : nat, Z.of_nat t' < t -> remapped table float64 lu o t')
  /\ st' = advance t st.

Lemma remap_inv_start {C} (table : list C) (float64 : C -> float)
    (lu o : DenseArray) (st : State World) :
  length (Elements o) = length (Elements lu) ->
  remap_inv table float64 lu (Shape o) st 0 o st.
Proof.
  intros HL. split; [reflexivity|]. split; [exact HL|].
  split; [intros; lia | now rewrite advance_0].
Qed.

Lemma remap_inv_step {C} (table : list C) (float64 : C -> float)
    (lu o : DenseArray) (st st' : State World) (t : nat) (v : float) (c : C) :
  remap_inv table float64 lu (Shape o) st (Z.of_nat t) o st' ->
  Elements lu !! t = Some v ->
  0 <= entry v < Z.of_nat (length table) ->
  table !! Z.to_nat (entry v) = Some c ->
  remap_inv table float64 lu (Shape o) st (Z.of_nat t + 1)
    (mkDense (<[t := float64 c]> (Elements o)) (Shape o))
    (mkState (world st') (S (applied st'))).
Proof.
  intros (HS & HL & Hdone & ->) Hv He Hc.
  pose proof (lookup_lt_Some _ _ _ Hv) as Hlt.
  split; [reflexivity|]. split; [simpl; now rewrite length_insert|]. split.
  - simpl. intros t' Ht' v' Hv'.
    destruct (decide (t' = t)) as [-> | Hne].
    + assert (v' = v) as -> by congruence. split; [exact He|].
      exists c. split; [exact Hc|]. simpl. apply list_lookup_insert_eq. lia.
    + destruct (Hdone t' ltac:(lia) v' Hv') as (He' & c' & Hc' & Ho').
      split; [exact He'|]. exists c'. split; [exact Hc'|].
      simpl. now rewrite list_lookup_insert_ne by auto.
  - unfold advance. simpl. f_equal. lia.
Qed.

(** The nested loop of the two categorical remappers on a well-formed
    two-dimensional grid: it fills every cell from the table, or panics at
    the first cell whose code has no entry. *)
Lemma landUseLoop_spec {C} (table : list C) (float64 : C -> float)
    (lu o : DenseArray) (n0 n1 : Z) (st : State World) :
  Shape lu = [n0; n1] -> Shape o = [n0; n1] ->
  0 <= n0 -> 0 <= n1 -> n0 * n1 <= max_int ->
  Z.of_nat (length (Elements lu)) = n0 * n1 ->
  length (Elements o) = length (Elements lu) ->
  wp (landUseLoop table float64 lu o)
     (fun o' st' => remap_inv table float64 lu [n0; n1] st (n0 * n1) o' st')
     (lookup_panic table lu st) st.
Proof.
  intros HSlu HSo Hn0 Hn1 Hmax HLlu HLo. unfold landUseLoop.
  apply wp_bind, wp_lift. rewrite HSlu. simpl.
  eapply wp_mono;
    [ apply (wp_forUpTo
        (fun j o' st' => remap_inv table float64 lu [n0; n1] st (j * n1) o' st')
        (lookup_panic table lu st) n0); [exact Hn0 | |]
    | | auto ].
  - rewrite Z.mul_0_l, <- HSo. now apply remap_inv_start.
  - intros j o1 st1 Hj Hinv.
    apply wp_bind, wp_lift. simpl.
    eapply wp_mono;
      [ apply (wp_forUpTo
          (fun i o' st' =>
             remap_inv table float64 lu [n0; n1] st (j * n1 + i) o' st')
          (lookup_panic table lu st) n1); [exact Hn1 | |]
      | | auto ].
    + now rewrite Z.add_0_r.
    + intros i o2 st2 Hi Hinv2.
      assert (Ht : 0 <= j * n1 + i < n0 * n1) by nia.
      destruct (lookup_lt_is_Some_2 (Elements lu) (Z.to_nat (j * n1 + i))
                  ltac:(lia)) as [v Hv].
      pose proof Hinv2 as (HS2 & HL2 & Hdone2 & Hst2).
      apply wp_bind, wp_lift.
      rewrite (Get_2 lu n0 n1 j i v) by assumption.
      apply wp_bind, wp_lift. fold (entry v).
      destruct (decide (0 <= entry v < Z.of_nat (length table))) as [He | He].
      * destruct (lookup_lt_is_Some_2 table (Z.to_nat (entry v)) ltac:(lia))
          as [c Hc].
        rewrite (get_lookup _ _ c) by (lia || exact Hc).
        apply wp_bind, wp_tick. apply wp_lift.
        rewrite (SetVal_2 o2 n0 n1) by (assumption || lia).
        pose proof (remap_inv_step table float64 lu o2 st st2
                      (Z.to_nat (j * n1 + i)) v c) as Hstep.
        rewrite Z2Nat.id in Hstep by lia. rewrite HS2 in Hstep.
        replace (j * n1 + (i + 1)) with (j * n1 + i + 1) by lia.
        rewrite HS2. apply Hstep; auto.
      * rewrite get_outside by exact He.
        exists (Z.to_nat (j * n1 + i)), v.
        split; [exact Hv|]. split; [exact He|]. split; [reflexivity|].
        rewrite Z2Nat.id by lia. exact Hst2.
    + intros o2 st2 Hinv2. simpl.
      now replace ((j + 1) * n1) with (j * n1 + n1) by lia.
  - intros o' st' Hinv. exact Hinv.
Qed.

(** The loop of [cmaqZ0], over the elements of a grid of any shape. *)
Lemma z0Loop_spec (lu zo : DenseArray) (st : State World) :
  length (Elements zo) = length (Elements lu) ->
  wp (forEach (Elements lu)
        (fun i v (zo : DenseArray) =>
           do z <- lift (Slice.get NLCDz0 (GoInt.sub (f2i v) 1));
           do _ <- tick;
           do e <- lift (Slice.set (Elements zo) i z);
           ret (mkDense e (Shape zo)))
        zo)
     (fun zo' st' =>
        remap_inv NLCDz0 id lu (Shape zo) st
          (Z.of_nat (length (Elements lu))) zo' st')
     (lookup_panic NLCDz0 lu st) st.
Proof.
  intros HL.
  apply (wp_forEach
           (fun t zo' st' => remap_inv NLCDz0 id lu (Shape zo) st t zo' st')
           (lookup_panic NLCDz0 lu st)).
  - now apply remap_inv_start.
  - intros k v zo1 st1 Hk Hinv.
    pose proof (lookup_lt_Some _ _ _ Hk) as Hlt.
    pose proof Hinv as (HS1 & HL1 & Hdone1 & Hst1).
    apply wp_bind, wp_lift. fold (entry v).
    destruct (decide (0 <= entry v < Z.of_nat (length NLCDz0))) as [He | He].
    + destruct (lookup_lt_is_Some_2 NLCDz0 (Z.to_nat (entry v)) ltac:(lia))
        as [c Hc].
      rewrite (get_lookup _ _ c) by (lia || exact Hc).
      apply wp_bind, wp_tick.
      apply wp_bind, wp_lift. rewrite set_inside by lia.
      apply wp_ret. rewrite Nat2Z.id.
      pose proof (remap_inv_step NLCDz0 id lu zo1 st st1 k v c) as Hstep.
      rewrite HS1 in Hstep. simpl. rewrite HS1.
      apply Hstep; auto.
    + rewrite get_outside by exact He.
      exists k, v.
      split; [exact Hk|]. split; [exact He|]. split; [reflexivity|]. exact Hst1.
Qed.

End LandUse.

Section Remappers.
Context {E : Extern}.
Import GoInt GoIntFacts SparseFacts SliceFacts.

Lemma well_formed_2 (A : DenseArray) (n0 n1 : Z) :
  sparse.well_formed A = true -> Shape A = [n0; n1] ->
  0 <= n0 /\ 0 <= n1 /\ n0 * n1 <= max_int
  /\ Z.of_nat (length (Elements A)) = n0 * n1.
Proof.
  intros W HS. pose proof (well_formed_spec A W) as [Hsz HL].
  unfold sparse.well_formed in W. rewrite HS in *. simpl in *.
  apply andb_prop in W as [W _]. apply andb_prop in W as [W _].
  apply andb_prop in W as [W0 W]. apply andb_prop in W as [W1 _].
  apply Z.leb_le in W0, W1. lia.
Qed.

(** The pull shared by the two categorical remappers. *)
Definition remapPull {C : Type} (table : list C) (float64 : C -> float)
    (luFunc : NextData) : NextData :=
  do '(lu, err) <- luFunc;
  match err with Some err => ret (None, Some err) | None =>
  do lu' <- lift (sparse.deref lu);
  do o <- lift (sparse.ZerosDense (Shape lu'));
  do o <- landUseLoop table float64 lu' o;
  ret (Some o, None)
  end.

Lemma cmaqSeinfeldLandUse_remapPull (luFunc : NextData) :
  cmaqSeinfeldLandUse luFunc = remapPull NLCDseinfeld seinfeld_float64 luFunc.
Proof. reflexivity. Qed.

Lemma cmaqWeselyLandUse_remapPull (luFunc : NextData) :
  cmaqWeselyLandUse luFunc = remapPull NLCDwesely wesely_float64 luFunc.
Proof. reflexivity. Qed.

Lemma remapPull_spec {C} (table : list C) (float64 : C -> float)
    (luFunc : NextData) (st st1 : State World) (lu : DenseArray) (n0 n1 : Z) :
  luFunc st = (Ret (Some lu, None), st1) ->
  sparse.well_formed lu = true ->
  Shape lu = [n0; n1] ->
  wp (remapPull table float64 luFunc)
     (fun r st' =>
        exists o : DenseArray,
          r = (Some o, None)
          /\ remap_inv table float64 lu (Shape lu) st1
               (Z.of_nat (length (Elements lu))) o st')
     (lookup_panic table lu st1) st.
Proof.
  intros Hlu W HS.
  pose proof (well_formed_spec lu W) as [Hsz HL].
  pose proof (well_formed_2 lu n0 n1 W HS) as (Hn0 & Hn1 & Hmax & HL2).
  unfold remapPull.
  apply wp_bind. eapply wp_call; [exact Hlu|]. simpl.
  apply wp_bind, wp_lift; simpl.
  apply wp_bind, wp_lift. rewrite ZerosDense_spec by exact Hsz.
  apply wp_bind.
  eapply wp_mono;
    [ apply (landUseLoop_spec table float64 lu _ n0 n1); auto | | auto ].
  - simpl. rewrite length_replicate. lia.
  - intros o st' Hinv. apply wp_ret. exists o. split; [reflexivity|].
    rewrite HL2, HS. exact Hinv.
Qed.

Lemma cmaqZ0_spec (luFunc : NextData) (st st1 : State World) (lu : DenseArray) :
  luFunc st = (Ret (Some lu, None), st1) ->
  sparse.well_formed lu = true ->
  wp (cmaqZ0 luFunc)
     (fun r st' =>
        exists zo : DenseArray,
          r = (Some zo, None)
          /\ remap_inv NLCDz0 id lu (Shape lu) st1
               (Z.of_nat (length (Elements lu))) zo st')
     (lookup_panic NLCDz0 lu st1) st.
Proof.
  intros Hlu W.
  pose proof (well_formed_spec lu W) as [Hsz HL].
  unfold cmaqZ0.
  apply wp_bind. eapply wp_call; [exact Hlu|]. simpl.
  apply wp_bind, wp_lift; simpl.
  apply wp_bind, wp_lift. rewrite ZerosDense_spec by exact Hsz.
  apply wp_bind.
  eapply wp_mono; [ apply (z0Loop_spec lu) | | auto ].
  - simpl. rewrite length_replicate. lia.
  - intros zo st' Hinv. apply wp_ret. exists zo. split; [reflexivity|].
    exact Hinv.
Qed.

(** When every code is valid the exceptional exit of a remapper is closed. *)
Lemma all_valid_no_panic {C} (table : list C) (lu : DenseArray)
    (st : State World) (p : panic) (st' : State World) :
  Z.of_nat (length table) <= max_int ->
  (forall (t : nat) (v : float),
     Elements lu !! t = Some v -> valid_code table (f2i v)) ->
  lookup_panic table lu st p st' -> False.
Proof.
  intros Hl Hall (t & v & Hv & Hbad & _).
  apply Hbad. now apply (entry_valid table v Hl), (Hall t).
Qed.

(** What the invariant at the end of a remapper says cell by cell. *)
Lemma remap_inv_cells {C} (table : list C) (float64 : C -> float)
    (lu o : DenseArray) (shape : list Z) (st st' : State World) :
  Z.of_nat (length table) <= max_int ->
  (forall (t : nat) (v : float),
     Elements lu !! t = Some v -> valid_code table (f2i v)) ->
  remap_inv table float64 lu shape st (Z.of_nat (length (Elements lu))) o st' ->
  Shape o = shape
  /\ length (Elements o) = length (Elements lu)
  /\ st' = advance (Z.of_nat (length (Elements lu))) st
  /\ forall (t : nat) (v : float),
       Elements lu !! t = Some v ->
       exists c, table !! Z.to_nat (f2i v - 1) = Some c
                 /\ Elements o !! t = Some (float64 c).
Proof.
  intros Hl Hall (HS & HL & Hdone & Hst).
  split; [exact HS|]. split; [exact HL|]. split; [exact Hst|].
  intros t v Hv.
  pose proof (lookup_lt_Some _ _ _ Hv) as Hlt.
  destruct (Hdone t ltac:(lia) v Hv) as (_ & c & Hc & Ho).
  destruct (entry_valid table v Hl (Hall t v Hv)) as [He _].
  rewrite He in Hc. eauto.
Qed.

(** C6. On a well-formed land-use grid whose every cell holds a valid 1-based
    code ([1 <= code <= 40], the length of each table) each remapper returns
    a grid of the same shape whose every cell is the table entry at index
    [code - 1]: of [NLCDseinfeld] for the Seinfeld remap and of [NLCDwesely]
    for the Wesely remap, both converted to [float64] and both on the
    two-dimensional grids their loops are written for, and of [NLCDz0] for
    the roughness length, on a grid of any shape. *)
Theorem remap_valid_codes (luFunc : NextData) (st st1 : State World)
    (lu : DenseArray) :
  luFunc st = (Ret (Some lu, None), st1) ->
  sparse.well_formed lu = true ->
  (forall (t : nat) (v : float), Elements lu !! t = Some v -> 1 <= f2i v <= 40) ->
  (forall n0 n1 : Z, Shape lu = [n0; n1] ->
     (exists o : DenseArray,
        cmaqSeinfeldLandUse luFunc st
        = (Ret (Some o, None), advance (Z.of_nat (length (Elements lu))) st1)
        /\ Shape o = Shape lu
        /\ length (Elements o) = length (Elements lu)
        /\ forall (t : nat) (v : float),
             Elements lu !! t = Some v ->
             exists c, NLCDseinfeld !! Z.to_nat (f2i v - 1) = Some c
                       /\ Elements o !! t = Some (seinfeld_float64 c))
     /\ (exists o : DenseArray,
        cmaqWeselyLandUse luFunc st
        = (Ret (Some o, None), advance (Z.of_nat (length (Elements lu))) st1)
        /\ Shape o = Shape lu
        /\ length (Elements o) = length (Elements lu)
        /\ forall (t : nat) (v : float),
             Elements lu !! t = Some v ->
             exists c, NLCDwesely !! Z.to_nat (f2i v - 1) = Some c
                       /\ Elements o !! t = Some (wesely_float64 c)))
  /\ (exists zo : DenseArray,
        cmaqZ0 luFunc st
        = (Ret (Some zo, None), advance (Z.of_nat (length (Elements lu))) st1)
        /\ Shape zo = Shape lu
        /\ length (Elements zo) = length (Elements lu)
        /\ forall (t : nat) (v : float),
             Elements lu !! t = Some v ->
             exists z, NLCDz0 !! Z.to_nat (f2i v - 1) = Some z
                       /\ Elements zo !! t = Some z).
Proof.
  intros Hlu W Hall.
  assert (Hmax : Z.of_nat 40 <= max_int) by (unfold max_int; lia).
  split; [intros n0 n1 HS; split|].
  - destruct (wp_close_panic _ _ _ _
                 (remapPull_spec NLCDseinfeld seinfeld_float64 luFunc st st1 lu
                    n0 n1 Hlu W HS)
                 (fun p s H => all_valid_no_panic NLCDseinfeld lu st1 p s Hmax Hall H))
      as (r & st' & Hrun & o & -> & Hinv).
    apply (remap_inv_cells NLCDseinfeld _ _ _ _ _ _ Hmax Hall) in Hinv
      as (HS' & HL & -> & Hcells).
    exists o. rewrite cmaqSeinfeldLandUse_remapPull. auto.
  - destruct (wp_close_panic _ _ _ _
                 (remapPull_spec NLCDwesely wesely_float64 luFunc st st1 lu
                    n0 n1 Hlu W HS)
                 (fun p s H => all_valid_no_panic NLCDwesely lu st1 p s Hmax Hall H))
      as (r & st' & Hrun & o & -> & Hinv).
    apply (remap_inv_cells NLCDwesely _ _ _ _ _ _ Hmax Hall) in Hinv
      as (HS' & HL & -> & Hcells).
    exists o. rewrite cmaqWeselyLandUse_remapPull. auto.
  - destruct (wp_close_panic _ _ _ _
                 (cmaqZ0_spec luFunc st st1 lu Hlu W)
                 (fun p s H => all_valid_no_panic NLCDz0 lu st1 p s Hmax Hall H))
      as (r & st' & Hrun & zo & -> & Hinv).
    apply (remap_inv_cells NLCDz0 _ _ _ _ _ _ Hmax Hall) in Hinv
      as (HS' & HL & -> & Hcells).
    exists zo. auto.
Qed.

End Remappers.

(** ** Layer height *)

Section LayerHeight.
Context {E : Extern}.
Import GoInt GoIntFacts SparseFacts SliceFacts.

(** The flat position of cell [(k, j, i)] in a grid with [n1] rows and [n2]
    columns per layer. *)
Definition flat3 (n1 n2 k j i : Z) : Z := (k * n1 + j) * n2 + i.

Lemma flat3_inj (n1 n2 k j i k' j' i' : Z) :
  0 <= j < n1 -> 0 <= i < n2 -> 0 <= j' < n1 -> 0 <= i' < n2 ->
  flat3 n1 n2 k j i = flat3 n1 n2 k' j' i' ->
  k = k' /\ j = j' /\ i = i'.
Proof.
  unfold flat3. intros Hj Hi Hj' Hi' He.
  destruct (Z.div_mod_unique n2 (k * n1 + j) (k' * n1 + j') i i') as [Hq Hr];
    [lia | lia | lia |].
  destruct (Z.div_mod_unique n1 k k' j j') as [Hk Hjj]; [lia | lia | lia |].
  auto.
Qed.

Lemma flat3_bound (n0 n1 n2 k j i : Z) :
  0 <= k < n0 -> 0 <= j < n1 -> 0 <= i < n2 ->
  0 <= flat3 n1 n2 k j i < n0 * (n1 * n2).
Proof.
  unfold flat3. intros Hk Hj Hi.
  assert (H1 : 0 <= k * n1) by nia.
  assert (H2 : k * n1 + j + 1 <= n0 * n1) by nia.
  assert (H3 : (k * n1 + j + 1) * n2 <= n0 * n1 * n2)
    by (apply Z.mul_le_mono_nonneg_r; lia).
  assert (H4 : 0 <= (k * n1 + j) * n2) by nia.
  lia.
Qed.

Lemma well_formed_3 (A : DenseArray) (n0 n1 n2 : Z) :
  sparse.well_formed A = true -> Shape A = [n0; n1; n2] ->
  0 <= n0 /\ 0 <= n1 /\ 0 <= n2 /\ n0 * (n1 * n2) <= max_int
  /\ Z.of_nat (length (Elements A)) = n0 * (n1 * n2).
Proof.
  intros W HS. pose proof (well_formed_spec A W) as [Hsz HL].
  unfold sparse.well_formed in W. rewrite HS in *. simpl in *.
  apply andb_prop in W as [W _]. apply andb_prop in W as [W _].
  apply andb_prop in W as [W0 W]. apply andb_prop in W as [W1 W].
  apply andb_prop in W as [W2 _].
  apply Z.leb_le in W0, W1, W2. lia.
Qed.

Lemma Get_3 (A : DenseArray) (n0 n1 n2 k j i : Z) (v : float) :
  Shape A = [n0; n1; n2] ->
  0 <= k < n0 -> 0 <= j < n1 -> 0 <= i < n2 -> n0 * (n1 * n2) <= max_int ->
  Elements A !! Z.to_nat (flat3 n1 n2 k j i) = Some v ->
  sparse.Get A [k; j; i] = Ret v.
Proof.
  intros HS Hk Hj Hi Hn Hv. unfold sparse.Get.
  rewrite (Index1d_3 A n0 n1 n2) by assumption.
  apply get_lookup; [|exact Hv].
  pose proof (flat3_bound n0 n1 n2 k j i Hk Hj Hi). unfold flat3 in *. lia.
Qed.

Lemma SetVal_3 (A : DenseArray) (n0 n1 n2 k j i : Z) (x : float) :
  Shape A = [n0; n1; n2] ->
  0 <= k < n0 -> 0 <= j < n1 -> 0 <= i < n2 -> n0 * (n1 * n2) <= max_int ->
  Z.of_nat (length (Elements A)) = n0 * (n1 * n2) ->
  sparse.SetVal A x [k; j; i]
  = Ret (mkDense (<[Z.to_nat (flat3 n1 n2 k j i) := x]> (Elements A)) (Shape A)).
Proof.
  intros HS Hk Hj Hi Hn HL. unfold sparse.SetVal.
  rewrite (Index1d_3 A n0 n1 n2) by assumption.
  pose proof (flat3_bound n0 n1 n2 k j i Hk Hj Hi) as Hb. unfold flat3 in *.
  rewrite set_inside by lia. reflexivity.
Qed.

(** The height the loop stores for cell [(k, j, i)], written as the source
    writes it: [(ph[k,j,i] + phb[k,j,i] - ph[0,j,i] - phb[0,j,i]) / g]. *)
Definition height_cell (ph phb H : DenseArray) (n1 n2 k j i : Z) : Prop :=
  forall a b a0 b0 : float,
    Elements ph !! Z.to_nat (flat3 n1 n2 k j i) = Some a ->
    Elements phb !! Z.to_nat (flat3 n1 n2 k j i) = Some b ->
    Elements ph !! Z.to_nat (flat3 n1 n2 0 j i) = Some a0 ->
    Elements phb !! Z.to_nat (flat3 n1 n2 0 j i) = Some b0 ->
    Elements H !! Z.to_nat (flat3 n1 n2 k j i)
    = Some ((a + b - a0 - b0) / g)%float.

Definition height_inv (ph phb : DenseArray) (n0 n1 n2 : Z) (st : State World)
    (t : Z) (H : DenseArray) (st' : State World) : Prop :=
  Shape H = [n0; n1; n2]
  /\ length (Elements H) = length (Elements ph)
  /\ (forall k j i, 0 <= k < n0 -> 0 <= j < n1 -> 0 <= i < n2 ->
        flat3 n1 n2 k j i < t -> height_cell ph phb H n1 n2 k j i)
  /\ st' = advance t st.

Lemma height_inv_step (ph phb H : DenseArray) (n0 n1 n2 k j i : Z)
    (st st' : State World) (a b a0 b0 : float) :
  0 <= k < n0 -> 0 <= j < n1 -> 0 <= i < n2 ->
  Z.of_nat (length (Elements ph)) = n0 * (n1 * n2) ->
  Elements ph !! Z.to_nat (flat3 n1 n2 k j i) = Some a ->
  Elements phb !! Z.to_nat (flat3 n1 n2 k j i) = Some b ->
  Elements ph !! Z.to_nat (flat3 n1 n2 0 j i) = Some a0 ->
  Elements phb !! Z.to_nat (flat3 n1 n2 0 j i) = Some b0 ->
  height_inv ph phb n0 n1 n2 st (flat3 n1 n2 k j i) H st' ->
  height_inv ph phb n0 n1 n2 st (flat3 n1 n2 k j i + 1)
    (mkDense (<[Z.to_nat (flat3 n1 n2 k j i) := ((a + b - a0 - b0) / g)%float]>
                (Elements H)) (Shape H))
    (mkState (world st') (S (applied st'))).
Proof.
  intros Hk Hj Hi HLph Ha Hb Ha0 Hb0 (HS & HL & Hdone & ->).
  pose proof (flat3_bound n0 n1 n2 k j i Hk Hj Hi) as Hbound.
  split; [exact HS|]. split; [simpl; now rewrite length_insert|]. split.
  - intros k' j' i' Hk' Hj' Hi' Hlt a' b' a0' b0' Ha' Hb' Ha0' Hb0'. simpl.
    pose proof (flat3_bound n0 n1 n2 k' j' i' Hk' Hj' Hi') as Hbound'.
    destruct (Z.eq_dec (flat3 n1 n2 k' j' i') (flat3 n1 n2 k j i)) as [He | Hne].
    + destruct (flat3_inj n1 n2 k' j' i' k j i Hj' Hi' Hj Hi He) as (-> & -> & ->).
      rewrite list_lookup_insert_eq by lia. congruence.
    + rewrite list_lookup_insert_ne by lia.
      apply (Hdone k' j' i'); auto. lia.
  - unfold advance. simpl. f_equal. lia.
Qed.

(** [geopotentialToHeight] on well-formed three-dimensional grids of one
    shape. *)
Lemma geopotentialToHeight_spec (ph phb : DenseArray) (n0 n1 n2 : Z)
    (st : State World) :
  sparse.well_formed ph = true -> sparse.well_formed phb = true ->
  Shape ph = [n0; n1; n2] -> Shape phb = [n0; n1; n2] ->
  wp (geopotentialToHeight (Some ph) (Some phb))
     (fun H st' => height_inv ph phb n0 n1 n2 st (n0 * (n1 * n2)) H st')
     (fun _ _ => False) st.
Proof.
  intros Wph Wphb HSph HSphb.
  pose proof (well_formed_spec ph Wph) as [Hsz _].
  pose proof (well_formed_3 ph n0 n1 n2 Wph HSph) as (Hn0 & Hn1 & Hn2 & Hmax & HLph).
  pose proof (well_formed_3 phb n0 n1 n2 Wphb HSphb) as (_ & _ & _ & _ & HLphb).
  unfold geopotentialToHeight.
  apply wp_bind, wp_lift; simpl.
  apply wp_bind, wp_lift. rewrite ZerosDense_spec by exact Hsz.
  apply wp_bind, wp_lift. rewrite HSph. simpl.
  set (H0 := mkDense _ _).
  assert (Hinit : height_inv ph phb n0 n1 n2 st 0 H0 st).
  { split; [reflexivity|]. split; [simpl; rewrite length_replicate; lia|].
    split; [|now rewrite advance_0].
    intros k j i Hk Hj Hi Hlt.
    pose proof (flat3_bound n0 n1 n2 k j i Hk Hj Hi). lia. }
  clearbody H0.
  eapply wp_mono;
    [ apply (wp_forUpTo
        (fun k H st' => height_inv ph phb n0 n1 n2 st (flat3 n1 n2 k 0 0) H st')
        (fun _ _ => False) n0); [exact Hn0 | exact Hinit |]
    | | auto ].
  - intros k H1 st1 Hk Hinv1.
    apply wp_bind, wp_lift. simpl.
    eapply wp_mono;
      [ apply (wp_forUpTo
          (fun j H st' => height_inv ph phb n0 n1 n2 st (flat3 n1 n2 k j 0) H st')
          (fun _ _ => False) n1); [exact Hn1 | exact Hinv1 |]
      | | auto ].
    + intros j H2 st2 Hj Hinv2.
      apply wp_bind, wp_lift. simpl.
      eapply wp_mono;
        [ apply (wp_forUpTo
            (fun i H st' =>
               height_inv ph phb n0 n1 n2 st (flat3 n1 n2 k j i) H st')
            (fun _ _ => False) n2); [exact Hn2 | exact Hinv2 |]
        | | auto ].
      * intros i H3 st3 Hi Hinv3.
        pose proof Hinv3 as (HS3 & HL3 & _ & _).
        pose proof (flat3_bound n0 n1 n2 k j i Hk Hj Hi) as Hb.
        assert (Hk0 : 0 <= 0 < n0) by lia.
        pose proof (flat3_bound n0 n1 n2 0 j i Hk0 Hj Hi) as Hb0.
        destruct (lookup_lt_is_Some_2 (Elements ph)
                    (Z.to_nat (flat3 n1 n2 k j i)) ltac:(lia)) as [a Ha].
        destruct (lookup_lt_is_Some_2 (Elements phb)
                    (Z.to_nat (flat3 n1 n2 k j i)) ltac:(lia)) as [b Hbv].
        destruct (lookup_lt_is_Some_2 (Elements ph)
                    (Z.to_nat (flat3 n1 n2 0 j i)) ltac:(lia)) as [a0 Ha0].
        destruct (lookup_lt_is_Some_2 (Elements phb)
                    (Z.to_nat (flat3 n1 n2 0 j i)) ltac:(lia)) as [b0 Hbv0].
        apply wp_bind, wp_lift.
        rewrite (Get_3 ph n0 n1 n2 k j i a) by assumption.
        apply wp_bind, wp_lift. simpl.
        apply wp_bind, wp_lift.
        rewrite (Get_3 phb n0 n1 n2 k j i b) by assumption.
        apply wp_bind, wp_lift.
        rewrite (Get_3 ph n0 n1 n2 0 j i a0) by assumption.
        apply wp_bind, wp_lift.
        rewrite (Get_3 phb n0 n1 n2 0 j i b0) by assumption.
        apply wp_bind, wp_tick. apply wp_lift.
        rewrite (SetVal_3 H3 n0 n1 n2) by (assumption || lia).
        replace (flat3 n1 n2 k j (i + 1)) with (flat3 n1 n2 k j i + 1)
          by (unfold flat3; lia).
        now apply (height_inv_step ph phb H3 n0 n1 n2 k j i st st3 a b a0 b0).
      * intros H3 st3 Hinv3. simpl.
        now replace (flat3 n1 n2 k (j + 1) 0) with (flat3 n1 n2 k j n2)
          by (unfold flat3; lia).
    + intros H2 st2 Hinv2. simpl.
      now replace (flat3 n1 n2 (k + 1) 0 0) with (flat3 n1 n2 k n1 0)
        by (unfold flat3; lia).
  - intros H st' Hinv. simpl.
    now replace (n0 * (n1 * n2)) with (flat3 n1 n2 n0 0 0) by (unfold flat3; lia).
Qed.

End LayerHeight.

Section LayerHeightPull.
Context {E : Extern}.
Import GoInt GoIntFacts SparseFacts SliceFacts FloatFacts.

(** C2, as the code has it.  On well-formed three-dimensional geopotential
    grids of one shape the layer-height producer returns a grid of that shape
    whose value at layer [k], row [j], column [i] is
    [(PH[k,j,i] + PHB[k,j,i] - PH[0,j,i] - PHB[0,j,i]) / g], each operation
    rounded to [float64] in that order, so it depends on column [(j, i)]
    only.  At layer 0 the value is exactly 0 for a column whose perturbation
    [PH[0,j,i]] is 0 and whose baseline [PHB[0,j,i]] is finite, [g] being
    positive and finite; rounding can leave a residue in other columns. *)
Theorem layer_height (w : WRFCmaq) (st st1 st2 : State World)
    (ph phb : DenseArray) (n0 n1 n2 : Z) :
  read w "PH" st = (Ret (Some ph, None), st1) ->
  read w "PHB" st1 = (Ret (Some phb, None), st2) ->
  sparse.well_formed ph = true ->
  sparse.well_formed phb = true ->
  Shape ph = [n0; n1; n2] ->
  Shape phb = [n0; n1; n2] ->
  exists H : DenseArray,
    Height w st = (Ret (Some H, None), advance (n0 * (n1 * n2)) st2)
    /\ Shape H = Shape ph
    /\ (forall k j i : Z, 0 <= k < n0 -> 0 <= j < n1 -> 0 <= i < n2 ->
          exists a b a0 b0 : float,
            sparse.Get ph [k; j; i] = Ret a
            /\ sparse.Get phb [k; j; i] = Ret b
            /\ sparse.Get ph [0; j; i] = Ret a0
            /\ sparse.Get phb [0; j; i] = Ret b0
            /\ sparse.Get H [k; j; i] = Ret ((a + b - a0 - b0) / g)%float)
    /\ (positiveF g = true ->
        forall (j i : Z) (b0 : float), 0 < n0 -> 0 <= j < n1 -> 0 <= i < n2 ->
          sparse.Get ph [0; j; i] = Ret 0%float ->
          sparse.Get phb [0; j; i] = Ret b0 ->
          finiteF b0 = true ->
          sparse.Get H [0; j; i] = Ret 0%float).
Proof.
  intros Hph Hphb Wph Wphb HSph HSphb.
  pose proof (well_formed_3 ph n0 n1 n2 Wph HSph) as (Hn0 & Hn1 & Hn2 & Hmax & HLph).
  pose proof (well_formed_3 phb n0 n1 n2 Wphb HSphb) as (_ & _ & _ & _ & HLphb).
  destruct (wp_returns _ _ _
              (geopotentialToHeight_spec ph phb n0 n1 n2 st2 Wph Wphb HSph HSphb))
    as (H & st' & Hrun & HSH & HLH & Hcells & ->).
  assert (Hcell : forall k j i : Z, 0 <= k < n0 -> 0 <= j < n1 -> 0 <= i < n2 ->
            exists a b a0 b0 : float,
              sparse.Get ph [k; j; i] = Ret a
              /\ sparse.Get phb [k; j; i] = Ret b
              /\ sparse.Get ph [0; j; i] = Ret a0
              /\ sparse.Get phb [0; j; i] = Ret b0
              /\ sparse.Get H [k; j; i] = Ret ((a + b - a0 - b0) / g)%float).
  { intros k j i Hk Hj Hi.
    pose proof (flat3_bound n0 n1 n2 k j i Hk Hj Hi) as Hb.
    assert (Hk0 : 0 <= 0 < n0) by lia.
    pose proof (flat3_bound n0 n1 n2 0 j i Hk0 Hj Hi) as Hb0.
    destruct (lookup_lt_is_Some_2 (Elements ph)
                (Z.to_nat (flat3 n1 n2 k j i)) ltac:(lia)) as [a Ha].
    destruct (lookup_lt_is_Some_2 (Elements phb)
                (Z.to_nat (flat3 n1 n2 k j i)) ltac:(lia)) as [b Hbv].
    destruct (lookup_lt_is_Some_2 (Elements ph)
                (Z.to_nat (flat3 n1 n2 0 j i)) ltac:(lia)) as [a0 Ha0].
    destruct (lookup_lt_is_Some_2 (Elements phb)
                (Z.to_nat (flat3 n1 n2 0 j i)) ltac:(lia)) as [b0 Hbv0].
    exists a, b, a0, b0.
    rewrite (Get_3 ph n0 n1 n2 k j i a), (Get_3 phb n0 n1 n2 k j i b),
      (Get_3 ph n0 n1 n2 0 j i a0), (Get_3 phb n0 n1 n2 0 j i b0) by assumption.
    repeat split.
    apply (Get_3 H n0 n1 n2); try assumption.
    apply (Hcells k j i); auto. lia. }
  exists H. split; [|split; [congruence | split; [exact Hcell|]]].
  - unfold Height. rewrite (bind_returns _ _ _ _ _ Hph). cbv beta iota.
    rewrite (bind_returns _ _ _ _ _ Hphb). cbv beta iota.
    rewrite (bind_returns _ _ _ _ _ Hrun). reflexivity.
  - intros Hg j i b0 Hpos Hj Hi Ha0 Hb0 Hfin.
    destruct (Hcell 0 j i ltac:(lia) Hj Hi) as (a & b & a0' & b0' & E1 & E2 & E3 & E4 & E5).
    rewrite E5. f_equal.
    assert (a = 0%float) as -> by congruence.
    assert (a0' = 0%float) as -> by congruence.
    assert (b = b0) as -> by congruence.
    assert (b0' = b0) as -> by congruence.
    rewrite (cancel_at_zero b0 Hfin). now apply zero_div.
Qed.

End LayerHeightPull.

Section Unchecked.
Context {E : Extern}.
Import GoInt GoIntFacts SparseFacts SliceFacts.

(** The loop of [cmaqTemperatureConvert] whatever the second grid: it never
    compares shapes, and stops only when it indexes past the end of [p]. *)
Lemma temperature_loop_unchecked (theta p T0 : DenseArray) (st : State World) :
  length (Elements T0) = length (Elements theta) ->
  wp (forEach (Elements theta)
        (fun i tp (T : DenseArray) =>
           do p' <- lift (sparse.deref (Some p));
           do pi <- lift (Slice.get (Elements p') i);
           do _ <- tick;
           do e <- lift (Slice.set (Elements T) i (thetaPerturbToTemperature tp pi));
           ret (mkDense e (Shape T)))
        T0)
     (fun T st' =>
        (length (Elements theta) <= length (Elements p))%nat
        /\ Shape T = Shape T0
        /\ (forall (i : nat) tp pi,
              Elements theta !! i = Some tp -> Elements p !! i = Some pi ->
              Elements T !! i = Some (thetaPerturbToTemperature tp pi))
        /\ st' = advance (Z.of_nat (length (Elements theta))) st)
     (fun q st' =>
        (length (Elements p) < length (Elements theta))%nat
        /\ q = IndexOutOfRange (Z.of_nat (length (Elements p)))
                 (Z.of_nat (length (Elements p)))
        /\ st' = advance (Z.of_nat (length (Elements p))) st)
     st.
Proof.
  intros HT0.
  eapply wp_mono;
    [ apply (wp_forEach
        (fun t (T : DenseArray) st' =>
           t <= Z.of_nat (length (Elements p))
           /\ Shape T = Shape T0
           /\ length (Elements T) = length (Elements theta)
           /\ (forall (i : nat) tp pi, (Z.of_nat i < t) ->
                 Elements theta !! i = Some tp -> Elements p !! i = Some pi ->
                 Elements T !! i = Some (thetaPerturbToTemperature tp pi))
           /\ st' = advance t st)
        (fun q st' =>
           (length (Elements p) < length (Elements theta))%nat
           /\ q = IndexOutOfRange (Z.of_nat (length (Elements p)))
                    (Z.of_nat (length (Elements p)))
           /\ st' = advance (Z.of_nat (length (Elements p))) st))
    | | auto ].
  - split; [lia|]. split; [reflexivity|]. split; [exact HT0|].
    split; [intros; lia | now rewrite advance_0].
  - intros k tp T st' Hk (Hle & HS & HL & Hcells & ->).
    pose proof (lookup_lt_Some _ _ _ Hk) as Hlt.
    apply wp_bind, wp_lift; simpl.
    apply wp_bind, wp_lift.
    destruct (decide (k < length (Elements p))%nat) as [Hin | Hout].
    + destruct (lookup_lt_is_Some_2 (Elements p) k Hin) as [pi Hpi].
      rewrite (get_lookup _ _ pi) by first [lia | now rewrite Nat2Z.id].
      apply wp_bind, wp_tick.
      apply wp_bind, wp_lift. rewrite set_inside by lia.
      apply wp_ret. simpl. rewrite Nat2Z.id.
      split; [lia|]. split; [exact HS|]. split; [now rewrite length_insert|].
      split.
      * intros i tp' pi' Hi Htp Hpi'.
        destruct (decide (i = k)) as [-> | Hne].
        -- rewrite list_lookup_insert_eq by lia. congruence.
        -- rewrite list_lookup_insert_ne by auto. apply (Hcells i); auto. lia.
      * unfold advance. simpl. f_equal. lia.
    + rewrite get_outside by lia.
      assert (k = length (Elements p)) as -> by lia.
      split; [lia|]. split; reflexivity.
  - intros T st' (Hle & HS & HL & Hcells & ->).
    split; [lia|]. split; [exact HS|]. split; [|reflexivity].
    intros i tp pi Htp Hpi. apply (Hcells i tp pi); auto.
    pose proof (lookup_lt_Some _ _ _ Htp). lia.
Qed.

(** C4, as the code has it.  The temperature combinator does not compare the
    shapes of its two grids.  Whatever shape the pressure grid has: if it
    holds at least as many elements as the well-formed grid of [theta'], the
    pull succeeds and returns a grid of the shape of [theta'] whose cell [i]
    is computed from [theta'[i]] and [p[i]]; if it holds fewer, the pull
    panics with a run-time index-out-of-range error at cell [len(p)], after
    the [len(p)] cells before it were computed.  No error value is returned
    in either case. *)
Theorem temperature_shape_unchecked (thetaFunc pFunc : NextData)
    (st st1 st2 : State World) (theta p : DenseArray) :
  thetaFunc st = (Ret (Some theta, None), st1) ->
  pFunc st1 = (Ret (Some p, None), st2) ->
  sparse.well_formed theta = true ->
  ((length (Elements theta) <= length (Elements p))%nat ->
     exists T : DenseArray,
       cmaqTemperatureConvert thetaFunc pFunc st
       = (Ret (Some T, None), advance (Z.of_nat (length (Elements theta))) st2)
       /\ Shape T = Shape theta
       /\ forall (i : nat) (tp pi : float),
            Elements theta !! i = Some tp -> Elements p !! i = Some pi ->
            Elements T !! i = Some (thetaPerturbToTemperature tp pi))
  /\ ((length (Elements p) < length (Elements theta))%nat ->
     cmaqTemperatureConvert thetaFunc pFunc st
     = (Panic (IndexOutOfRange (Z.of_nat (length (Elements p)))
                 (Z.of_nat (length (Elements p)))),
        advance (Z.of_nat (length (Elements p))) st2)).
Proof.
  intros Hth Hp Wth.
  pose proof (well_formed_spec _ Wth) as [Hsz Hlen].
  assert (Hw : wp (cmaqTemperatureConvert thetaFunc pFunc)
                 (fun r st' =>
                    (length (Elements theta) <= length (Elements p))%nat
                    /\ exists T : DenseArray,
                      r = (Some T, None)
                      /\ st' = advance (Z.of_nat (length (Elements theta))) st2
                      /\ Shape T = Shape theta
                      /\ forall (i : nat) (tp pi : float),
                           Elements theta !! i = Some tp -> Elements p !! i = Some pi ->
                           Elements T !! i = Some (thetaPerturbToTemperature tp pi))
                 (fun q st' =>
                    (length (Elements p) < length (Elements theta))%nat
                    /\ q = IndexOutOfRange (Z.of_nat (length (Elements p)))
                             (Z.of_nat (length (Elements p)))
                    /\ st' = advance (Z.of_nat (length (Elements p))) st2)
                 st).
  { unfold cmaqTemperatureConvert.
    apply wp_bind. eapply wp_call; [exact Hth|]. simpl.
    apply wp_bind. eapply wp_call; [exact Hp|]. simpl.
    apply wp_bind, wp_lift; simpl.
    apply wp_bind, wp_lift. rewrite ZerosDense_spec by exact Hsz.
    apply wp_bind.
    eapply wp_mono; [apply (temperature_loop_unchecked theta p) | | auto].
    - simpl. rewrite length_replicate. lia.
    - intros T st' (Hle & HST & Hcells & ->). apply wp_ret.
      split; [exact Hle|]. exists T. repeat split; auto. }
  split.
  - intros Hle.
    destruct (wp_close_panic _ _ _ _ Hw) as (r & st' & Hrun & _ & T & -> & -> & HS & Hc).
    { intros q s (Hlt & _). lia. }
    exists T. auto.
  - intros Hlt.
    destruct (wp_close_normal _ _ _ _ Hw) as (q & st' & Hrun & _ & -> & ->).
    { intros r s (Hle & _). lia. }
    exact Hrun.
Qed.

(** C3, as the code has it.  On a well-formed land-use grid with a cell whose
    code, a Go [int], is not between 1 and 40, the pull of each remapper does
    not return: it panics with Go's run-time index-out-of-range error on
    index [code - 1] of a table of length 40, at the first such cell in
    row-major order and after the cells before it were remapped.  No error
    value and no grid is returned, and nothing is defaulted or clamped.  The
    two categorical remappers are taken on the two-dimensional grids their
    loops are written for, the roughness length on a grid of any shape. *)
Theorem remap_invalid_code_panics (luFunc : NextData) (st st1 : State World)
    (lu : DenseArray) (t0 : nat) (v0 : float) :
  luFunc st = (Ret (Some lu, None), st1) ->
  sparse.well_formed lu = true ->
  Elements lu !! t0 = Some v0 ->
  GoInt.in_range (f2i v0) ->
  ~ (1 <= f2i v0 <= 40) ->
  (forall n0 n1 : Z, Shape lu = [n0; n1] ->
     (exists (t : nat) (v : float),
        Elements lu !! t = Some v
        /\ ~ (0 <= GoInt.sub (f2i v) 1 < 40)
        /\ cmaqSeinfeldLandUse luFunc st
           = (Panic (IndexOutOfRange (GoInt.sub (f2i v) 1) 40),
              advance (Z.of_nat t) st1))
     /\ (exists (t : nat) (v : float),
        Elements lu !! t = Some v
        /\ ~ (0 <= GoInt.sub (f2i v) 1 < 40)
        /\ cmaqWeselyLandUse luFunc st
           = (Panic (IndexOutOfRange (GoInt.sub (f2i v) 1) 40),
              advance (Z.of_nat t) st1)))
  /\ (exists (t : nat) (v : float),
        Elements lu !! t = Some v
        /\ ~ (0 <= GoInt.sub (f2i v) 1 < 40)
        /\ cmaqZ0 luFunc st
           = (Panic (IndexOutOfRange (GoInt.sub (f2i v) 1) 40),
              advance (Z.of_nat t) st1)).
Proof.
  intros Hlu W Hv0 Hr Hbad.
  assert (Hmax : Z.of_nat 40 <= max_int) by (unfold max_int; lia).
  assert (Hclosed : forall {C} (table : list C) (float64 : C -> float)
                      (r : sparse.ptr * option error) (s : State World),
             length table = 40%nat ->
             (exists o : DenseArray,
                r = (Some o, None)
                /\ remap_inv table float64 lu (Shape lu) st1
                     (Z.of_nat (length (Elements lu))) o s) -> False).
  { intros C table float64 r s Hlen (o & _ & _ & _ & Hdone & _).
    pose proof (lookup_lt_Some _ _ _ Hv0) as Hlt.
    destruct (Hdone t0 ltac:(lia) v0 Hv0) as (He & _).
    apply (entry_invalid table v0); auto.
    - rewrite Hlen. exact Hmax.
    - unfold valid_code. rewrite Hlen. exact Hbad. }
  split; [intros n0 n1 HS; split|].
  - destruct (wp_close_normal _ _ _ _
                (remapPull_spec NLCDseinfeld seinfeld_float64 luFunc st st1 lu
                   n0 n1 Hlu W HS)
                (fun r s => Hclosed _ NLCDseinfeld seinfeld_float64 r s eq_refl))
      as (q & s & Hrun & t & v & Hv & He & -> & ->).
    exists t, v. auto.
  - destruct (wp_close_normal _ _ _ _
                (remapPull_spec NLCDwesely wesely_float64 luFunc st st1 lu
                   n0 n1 Hlu W HS)
                (fun r s => Hclosed _ NLCDwesely wesely_float64 r s eq_refl))
      as (q & s & Hrun & t & v & Hv & He & -> & ->).
    exists t, v. auto.
  - destruct (wp_close_normal _ _ _ _
                (cmaqZ0_spec luFunc st st1 lu Hlu W)
                (fun r s => Hclosed _ NLCDz0 id r s eq_refl))
      as (q & s & Hrun & t & v & Hv & He & -> & ->).
    exists t, v. auto.
Qed.

End Unchecked.

(** * The statements on the reference world *)

Module OnRef.

Definition theta2 : DenseArray := mkDense [0; 10]%float [2].
Definition p2 : DenseArray := mkDense [101300; 50650]%float [2].
Definition p3 : DenseArray := mkDense [101300; 50650; 101300]%float [3].
Definition p1 : DenseArray := mkDense [101300]%float [1].
Definition lu22 : DenseArray := mkDense [1; 40; 13; 3]%float [2; 2].
Definition lu22bad : DenseArray := mkDense [1; 40; 0; 3]%float [2; 2].
Definition full : @WRFCmaq Ref.env :=
  @mkWRFCmaq Ref.env ∅ ∅ ∅ ∅ ∅ ∅ ∅ ∅ ∅ ∅ ∅ (2016, 1, 1) (2016, 1, 2)
    "wrfout_[DATE]" 3600000000000 86400000000000 None.
Definition surface : @WRFCmaq Ref.env :=
  @mkWRFCmaq Ref.env ∅ ∅ ∅ ∅ ∅ ∅ ∅ ∅ ∅ ∅ ∅ (2016, 1, 1) (2016, 1, 2)
    "surface_[DATE]" 3600000000000 86400000000000 None.
Definition nowhere : @WRFCmaq Ref.env :=
  @mkWRFCmaq Ref.env ∅ ∅ ∅ ∅ ∅ ∅ ∅ ∅ ∅ ∅ ∅ (2016, 1, 1) (2016, 1, 2)
    "elsewhere" 3600000000000 86400000000000 None.

End OnRef.

Lemma temperature_elementwise_witness :
  exists T : DenseArray,
    @cmaqTemperatureConvert Ref.env (Ref.constant OnRef.theta2)
      (Ref.constant OnRef.p2) Ref.st0
    = (Ret (Some T, None), mkState 2%nat 2%nat)
    /\ Shape T = [2]
    /\ Elements T !! 0%nat = Some 300%float.
Proof.
  destruct (@temperature_elementwise Ref.env (Ref.constant OnRef.theta2)
              (Ref.constant OnRef.p2) Ref.st0 _ _ OnRef.theta2 OnRef.p2
              eq_refl eq_refl eq_refl eq_refl eq_refl)
    as [(T & Hrun & HS & HL & Hc) _].
  exists T. split; [exact Hrun|]. split; [exact HS|].
  exact (Hc 0%nat 0%float 101300%float eq_refl eq_refl).
Defined.

Lemma pressure_radiation_sum_witness :
  exists P : DenseArray,
    @cmaqPressureConvert Ref.env (Ref.constant OnRef.p2)
      (Ref.constant OnRef.theta2) Ref.st0
    = (Ret (Some P, None), mkState 2%nat 2%nat)
    /\ Shape P = [2]
    /\ Elements P !! 1%nat = Some 50660%float.
Proof.
  destruct (@pressure_radiation_sum Ref.env (Ref.constant OnRef.theta2)
              (Ref.constant OnRef.p2) Ref.st0 _ _ OnRef.theta2 OnRef.p2
              eq_refl eq_refl eq_refl eq_refl eq_refl)
    as [(P & Hrun & HS & _ & HL & Hc) _].
  exists P. split; [exact Hrun|]. split; [exact HS|].
  exact (Hc 1%nat 10%float 50650%float eq_refl eq_refl).
Defined.

Lemma sum_commutes_witness :
  exists P Q : DenseArray,
    fst (@cmaqPressureConvert Ref.env (Ref.constant OnRef.theta2)
           (Ref.constant OnRef.p2) Ref.st0) = Ret (Some P, None)
    /\ fst (@cmaqPressureConvert Ref.env (Ref.constant OnRef.p2)
              (Ref.constant OnRef.theta2) Ref.st0) = Ret (Some Q, None)
    /\ Shape P = Shape Q /\ Elements P = Elements Q.
Proof.
  exact (proj1 (@sum_commutes Ref.env (Ref.constant OnRef.theta2)
                  (Ref.constant OnRef.p2) OnRef.theta2 OnRef.p2
                  Ref.st0 _ _ _ _ eq_refl eq_refl eq_refl
                  eq_refl eq_refl eq_refl eq_refl)).
Defined.

Lemma upstream_error_propagates_witness :
  @cmaqTemperatureConvert Ref.env (Ref.failing "no such file")
    (Ref.constant OnRef.p2) Ref.st0
  = (Ret (None, Some "no such file"), mkState 1%nat 0%nat)
  /\ @cmaqTemperatureConvert Ref.env (Ref.constant OnRef.theta2)
       (Ref.failing "variable not found") Ref.st0
     = (Ret (None, Some "variable not found"), mkState 2%nat 0%nat)
  /\ @Height Ref.env OnRef.nowhere Ref.st0
     = (Ret (None, Some "open elsewhere: no such file"), mkState 1%nat 0%nat)
  /\ @Height Ref.env OnRef.surface Ref.st0
     = (Ret (None, Some "variable PHB not found"), mkState 2%nat 0%nat).
Proof.
  split; [|split; [|split]].
  - exact (proj1 (proj1 (@upstream_error_propagates Ref.env
                           (Ref.failing "no such file") (Ref.constant OnRef.p2)
                           OnRef.nowhere Ref.st0 (mkState 1%nat 0%nat)
                           (mkState 2%nat 0%nat) None None "no such file")
                    eq_refl)).
  - exact (proj1 (proj1 (proj2 (@upstream_error_propagates Ref.env
                           (Ref.constant OnRef.theta2)
                           (Ref.failing "variable not found")
                           OnRef.nowhere Ref.st0 (mkState 1%nat 0%nat)
                           (mkState 2%nat 0%nat) (Some OnRef.theta2) None
                           "variable not found"))
                    eq_refl eq_refl)).
  - exact (proj1 (proj2 (proj2 (@upstream_error_propagates Ref.env
                           (Ref.failing "x") (Ref.failing "x")
                           OnRef.nowhere Ref.st0 (mkState 1%nat 0%nat)
                           (mkState 2%nat 0%nat) None None
                           "open elsewhere: no such file")))
             eq_refl).
  - exact (proj2 (proj2 (proj2 (@upstream_error_propagates Ref.env
                           (Ref.failing "x") (Ref.failing "x")
                           OnRef.surface Ref.st0 (mkState 1%nat 0%nat)
                           (mkState 2%nat 0%nat)
                           (Ref.records "PH") None "variable PHB not found")))
             eq_refl eq_refl).
Defined.

Lemma NewWRFCmaq_spec_witness :
  exists w : @WRFCmaq Ref.env,
    fst (@NewWRFCmaq Ref.env "wrfout_[DATE]" "20160101" "20160102" None) = Some w
    /\ @start Ref.env w = (2016, 1, 1)
    /\ @end_ Ref.env w = (2016, 1, 2)
    /\ @recordDelta Ref.env w = 3600000000000
    /\ @fileDelta Ref.env w = 86400000000000
    /\ @cmaqOut Ref.env w = "wrfout_[DATE]".
Proof.
  exact (proj2 (proj2 (@NewWRFCmaq_spec Ref.env "wrfout_[DATE]" "20160101"
                         "20160102" None eq_refl eq_refl)) eq_refl).
Defined.

Lemma lu22_codes (t : nat) (v : float) :
  Elements OnRef.lu22 !! t = Some v -> 1 <= @f2i Ref.env v <= 40.
Proof.
  destruct t as [|[|[|[|t]]]]; simpl; intros H; inversion H; subst; clear H.
  all: vm_compute; split; discriminate.
Defined.

Lemma remap_valid_codes_witness :
  (exists o : DenseArray,
      @cmaqSeinfeldLandUse Ref.env (Ref.constant OnRef.lu22) Ref.st0
      = (Ret (Some o, None), mkState 1%nat 4%nat)
      /\ Shape o = [2; 2])
  /\ (exists zo : DenseArray,
      @cmaqZ0 Ref.env (Ref.constant OnRef.lu22) Ref.st0
      = (Ret (Some zo, None), mkState 1%nat 4%nat)
      /\ Shape zo = [2; 2]).
Proof.
  destruct (@remap_valid_codes Ref.env (Ref.constant OnRef.lu22) Ref.st0 _
              OnRef.lu22 eq_refl eq_refl lu22_codes) as [H2 (zo & Hz & HSz & _)].
  destruct (H2 2 2 eq_refl) as [(o & Ho & HSo & _) _].
  split; [exists o | exists zo]; auto.
Defined.

Lemma remap_invalid_code_panics_witness :
  exists (t : nat) (v : float),
    Elements OnRef.lu22bad !! t = Some v
    /\ @cmaqZ0 Ref.env (Ref.constant OnRef.lu22bad) Ref.st0
       = (Panic (IndexOutOfRange (GoInt.sub (@f2i Ref.env v) 1) 40),
          @advance nat (Z.of_nat t) (mkState 1%nat 0%nat)).
Proof.
  assert (Hr : GoInt.in_range (@f2i Ref.env 0%float))
    by (vm_compute; split; discriminate).
  assert (Hbad : ~ (1 <= @f2i Ref.env 0%float <= 40))
    by (vm_compute; intros [H _]; apply H; reflexivity).
  destruct (@remap_invalid_code_panics Ref.env (Ref.constant OnRef.lu22bad)
              Ref.st0 _ OnRef.lu22bad 2%nat 0%float eq_refl eq_refl eq_refl
              Hr Hbad) as [_ (t & v & Hv & _ & Hrun)].
  exists t, v. auto.
Defined.

Lemma temperature_shape_unchecked_witness :
  (exists T : DenseArray,
      @cmaqTemperatureConvert Ref.env (Ref.constant OnRef.theta2)
        (Ref.constant OnRef.p3) Ref.st0
      = (Ret (Some T, None), mkState 2%nat 2%nat)
      /\ Shape T = [2])
  /\ @cmaqTemperatureConvert Ref.env (Ref.constant OnRef.theta2)
       (Ref.constant OnRef.p1) Ref.st0
     = (Panic (IndexOutOfRange 1 1), mkState 2%nat 1%nat).
Proof.
  split.
  - destruct (proj1 (@temperature_shape_unchecked Ref.env
                       (Ref.constant OnRef.theta2) (Ref.constant OnRef.p3)
                       Ref.st0 _ _ OnRef.theta2 OnRef.p3 eq_refl eq_refl eq_refl))
      as (T & Hrun & HS & _).
    + simpl. lia.
    + exists T. auto.
  - apply (proj2 (@temperature_shape_unchecked Ref.env
                    (Ref.constant OnRef.theta2) (Ref.constant OnRef.p1)
                    Ref.st0 _ _ OnRef.theta2 OnRef.p1 eq_refl eq_refl eq_refl)).
    simpl. lia.
Defined.

Lemma layer_height_witness :
  exists H : DenseArray,
    @Height Ref.env OnRef.full Ref.st0
    = (Ret (Some H, None), mkState 2%nat 4%nat)
    /\ Shape H = [2; 1; 2]
    /\ sparse.Get H [0; 0; 0] = Ret 0%float
    /\ sparse.Get H [0; 0; 1] = Ret 0%float.
Proof.
  destruct (@layer_height Ref.env OnRef.full Ref.st0 _ _
              (mkDense [0; 0; 980.665; 1961.33]%float [2; 1; 2])
              (mkDense [100; 2500; 100; 2500]%float [2; 1; 2])
              2 1 2 eq_refl eq_refl eq_refl eq_refl eq_refl eq_refl)
    as (H & Hrun & HS & _ & H0).
  exists H. split; [exact Hrun|]. split; [exact HS|].
  split.
  - apply (H0 eq_refl 0 0 100%float); try lia; reflexivity.
  - apply (H0 eq_refl 0 1 2500%float); try lia; reflexivity.
Defined.

(** C2, the claim as the spec words it, fails in [float64]: with
    [PH = 0.1] and [PHB = 0.2] at the only cell of a one-layer grid, the
    value the code stores at layer 0 is [(0.1 + 0.2 - 0.1 - 0.2) / g], which
    is not zero, while [((PH+PHB) - (PH+PHB)) / g] is. *)
Lemma layer0_rounding_residue :
  let ph := mkDense [0.1]%float [1; 1; 1] in
  let phb := mkDense [0.2]%float [1; 1; 1] in
  sparse.well_formed ph = true /\ sparse.well_formed phb = true
  /\ exists (H : DenseArray) (h : float),
       @geopotentialToHeight Ref.env (Some ph) (Some phb) Ref.st0
       = (Ret H, mkState 0%nat 1%nat)
       /\ sparse.Get H [0; 0; 0] = Ret h
       /\ (h =? 0)%float = false
       /\ (((0.1 + 0.2) - (0.1 + 0.2)) / @g Ref.env =? 0)%float = true.
Proof.
  split; [reflexivity|]. split; [reflexivity|].
  eexists. eexists. split; [vm_compute; reflexivity|].
  split; [vm_compute; reflexivity|]. split; reflexivity.
Qed.

(** C3, the claim as the spec words it, fails: a code of 0, or of 41, makes
    each remapper panic; none of them returns an error value. *)
Lemma out_of_range_code_is_a_panic :
  let lu0 := mkDense [0]%float [1; 1] in
  let lu41 := mkDense [41]%float [1; 1] in
  fst (@cmaqSeinfeldLandUse Ref.env (Ref.constant lu0) Ref.st0)
  = Panic (IndexOutOfRange (-1) 40)
  /\ fst (@cmaqWeselyLandUse Ref.env (Ref.constant lu0) Ref.st0)
     = Panic (IndexOutOfRange (-1) 40)
  /\ fst (@cmaqZ0 Ref.env (Ref.constant lu0) Ref.st0)
     = Panic (IndexOutOfRange (-1) 40)
  /\ fst (@cmaqSeinfeldLandUse Ref.env (Ref.constant lu41) Ref.st0)
     = Panic (IndexOutOfRange 40 40)
  /\ fst (@cmaqWeselyLandUse Ref.env (Ref.constant lu41) Ref.st0)
     = Panic (IndexOutOfRange 40 40)
  /\ fst (@cmaqZ0 Ref.env (Ref.constant lu41) Ref.st0)
     = Panic (IndexOutOfRange 40 40).
Proof. vm_compute. repeat split. Qed.

(** C4, the claim as the spec words it, fails: grids of different shapes go
    through the temperature combinator without an error when the pressure
    grid is the longer one, and make it panic after one cell was computed
    when it is the shorter one; the layer-height loop also accepts a
    baseline grid with one layer more than the perturbation grid. *)
Lemma shape_mismatch_is_not_checked :
  let a1 := mkDense [0]%float [1] in
  let b2 := mkDense [101300; 101300]%float [2] in
  let a2 := mkDense [0; 0]%float [2] in
  let b1 := mkDense [101300]%float [1] in
  let ph := mkDense [0]%float [1; 1; 1] in
  let phb := mkDense [100; 900]%float [2; 1; 1] in
  Shape a1 <> Shape b2
  /\ @cmaqTemperatureConvert Ref.env (Ref.constant a1) (Ref.constant b2) Ref.st0
     = (Ret (Some (mkDense [300]%float [1]), None), mkState 2%nat 1%nat)
  /\ Shape a2 <> Shape b1
  /\ @cmaqTemperatureConvert Ref.env (Ref.constant a2) (Ref.constant b1) Ref.st0
     = (Panic (IndexOutOfRange 1 1), mkState 2%nat 1%nat)
  /\ Shape ph <> Shape phb
  /\ @geopotentialToHeight Ref.env (Some ph) (Some phb) Ref.st0
     = (Ret (mkDense [0]%float [1; 1; 1]), mkState 0%nat 1%nat).
Proof.
  repeat split; try discriminate; vm_compute; reflexivity.
Qed.

(** * Further properties of the file *)

(** ** The temperature accessor *)

Section TemperatureAccessor.
Context {E : Extern}.
Import SparseFacts SliceFacts.

(** [WRFCmaq.T] wires the temperature combinator to the pressure combinator:
    one pull reads [T], then [PB], then [P], and on well-formed grids of one
    shape returns the temperature computed from the perturbation potential
    temperature and the total pressure [PB + P]. *)
Theorem T_reads_and_combines (w : WRFCmaq) (st st1 st2 st3 : State World)
    (theta pb p : DenseArray) :
  read w "T" st = (Ret (Some theta, None), st1) ->
  read w "PB" st1 = (Ret (Some pb, None), st2) ->
  read w "P" st2 = (Ret (Some p, None), st3) ->
  sparse.well_formed theta = true ->
  sparse.well_formed pb = true ->
  sparse.well_formed p = true ->
  Shape theta = Shape pb ->
  Shape pb = Shape p ->
  exists Tg : DenseArray,
    T w st
    = (Ret (Some Tg, None),
       advance (Z.of_nat (length (Elements theta)))
         (advance (Z.of_nat (length (Elements p))) st3))
    /\ Shape Tg = Shape theta
    /\ forall (i : nat) (tp b q : float),
         Elements theta !! i = Some tp ->
         Elements pb !! i = Some b ->
         Elements p !! i = Some q ->
         Elements Tg !! i
         = Some ((tp + 300) * math_Pow ((b + q) / 101300) 0.2854)%float.
Proof.
  intros HT HPB HP Wth Wpb Wp HS1 HS2.
  destruct (addPulls_sum (read w "PB") (read w "P") st1 st2 st3 pb p
              HPB HP Wpb Wp HS2) as (Pg & HPg & HSP & HLP & HcP).
  pose proof (well_formed_spec _ Wth) as [Hsz Hlen].
  pose proof (same_shape_length theta pb Wth Wpb HS1) as Hl1.
  assert (Hw : wp (T w)
                 (fun r st' =>
                    exists Tg : DenseArray,
                      r = (Some Tg, None)
                      /\ st' = advance (Z.of_nat (length (Elements theta)))
                                 (advance (Z.of_nat (length (Elements p))) st3)
                      /\ Shape Tg = Shape theta
                      /\ forall (i : nat) (tp pi : float),
                           Elements theta !! i = Some tp ->
                           Elements Pg !! i = Some pi ->
                           Elements Tg !! i = Some (thetaPerturbToTemperature tp pi))
                 (fun _ _ => False) st).
  { unfold T, cmaqTemperatureConvert.
    apply wp_bind. eapply wp_call; [exact HT|]. simpl.
    apply wp_bind. eapply wp_call; [exact HPg|]. simpl.
    apply wp_bind, wp_lift; simpl.
    apply wp_bind, wp_lift. rewrite ZerosDense_spec by exact Hsz.
    apply wp_bind.
    eapply wp_mono; [apply (temperature_loop theta Pg) | | auto].
    - lia.
    - simpl. rewrite length_replicate. lia.
    - intros Tg st' (HST & HL & Hcells & ->). apply wp_ret.
      exists Tg. repeat split; auto. }
  apply wp_returns in Hw as (r & st' & Hrun & Tg & -> & -> & HST & Hcells).
  exists Tg. split; [exact Hrun|]. split; [exact HST|].
  intros i tp b q Htp Hb Hq.
  exact (Hcells i tp (b + q)%float Htp (HcP i b q Hb Hq)).
Qed.

End TemperatureAccessor.

Lemma T_reads_and_combines_witness :
  exists Tg : DenseArray,
    @T Ref.env OnRef.full Ref.st0 = (Ret (Some Tg, None), mkState 3%nat 8%nat)
    /\ Shape Tg = [2; 1; 2]
    /\ Elements Tg !! 0%nat = Some 300%float.
Proof.
  destruct (@T_reads_and_combines Ref.env OnRef.full Ref.st0 _ _ _
              (mkDense [0; 10; 1.5; 12]%float [2; 1; 2])
              (mkDense [100000; 50000; 90000; 45000]%float [2; 1; 2])
              (mkDense [1300; 650; 300; 150]%float [2; 1; 2])
              eq_refl eq_refl eq_refl eq_refl eq_refl eq_refl eq_refl eq_refl)
    as (Tg & Hrun & HS & Hc).
  exists Tg. split; [exact Hrun|]. split; [exact HS|].
  exact (Hc 0%nat 0%float 100000%float 1300%float eq_refl eq_refl eq_refl).
Defined.
